(** * frigate-exporter: export, completion tracking, relocation, retention

    A shallow embedding of [frigate-exporter.py].  The script is a
    sequential pipeline of four functions over a handful of process-wide
    settings:

      export_previous_day_recordings  ->  check_export_status
        ->  check_and_move_exported_files  ->  clean_old_exports

    Everything the script obtains from outside (HTTP responses, the clock,
    the exit flag raised by the signal handler, the content of the disk,
    the order in which a set is walked) is an explicit argument of the
    embedded function; everything it does to the outside (requests,
    sleeps, moves, deletions, the warning that names the unresolved
    cameras) is returned in the result.

    - [pending_cameras] is a Python [set]: [gset string];
    - [file_sizes] and [export_start_times] are Python [dict]s:
      [gmap string Z];
    - the disk is a finite map from paths to sizes (or modification times);
    - clock readings and sizes are integers. *)

From stdpp Require Import base strings gmap list pretty.
From Stdlib Require Import ZArith Lia Ascii String.

Open Scope Z_scope.

(* ===================================================================== *)
(** * Strings and paths *)
(* ===================================================================== *)

Module Path.

Definition is_sep (c : ascii) : bool := Ascii.eqb c "/"%char.

(** [True] iff the string contains the separator. *)
Fixpoint has_sep (p : string) : bool :=
  match p with
  | EmptyString => false
  | String c r => is_sep c || has_sep r
  end.

(** [os.path.basename]: [p[p.rfind('/') + 1:]], the part after the last
    separator (the whole of [p] when there is none). *)
Fixpoint basename (p : string) : string :=
  match p with
  | EmptyString => EmptyString
  | String c r =>
      if has_sep r then basename r
      else if is_sep c then r
      else p
  end.

Definition startswith_sep (p : string) : bool :=
  match p with
  | String c _ => is_sep c
  | EmptyString => false
  end.

Fixpoint endswith_sep (p : string) : bool :=
  match p with
  | EmptyString => false
  | String c EmptyString => is_sep c
  | String _ r => endswith_sep r
  end.

(** What [os.path.join] puts between its two arguments when the second
    one is relative. *)
Definition join_sep (a : string) : string :=
  if bool_decide (a = "") || endswith_sep a then "" else "/".

(** [os.path.join(a, b)] of [posixpath]: an absolute [b] replaces [a]. *)
Definition join (a b : string) : string :=
  if startswith_sep b then b else a +:+ join_sep a +:+ b.

(** [needle in hay] for Python strings. *)
Fixpoint contains (needle hay : string) : bool :=
  String.prefix needle hay
  || match hay with
     | EmptyString => false
     | String _ r => contains needle r
     end.

End Path.

(** [get_real_file_path(video_path)].  [SOURCE_PATH] is the global the
    function reads. *)
Definition get_real_file_path (SOURCE_PATH video_path : string) : string :=
  if bool_decide (video_path = "") then ""
  else
    let filename := Path.basename video_path in
    let real_path := Path.join SOURCE_PATH filename in
    real_path.

(* ===================================================================== *)
(** * Calendar, [strptime], [strftime], time zones *)
(* ===================================================================== *)

Module Calendar.

Record date := Date { year : Z; month : Z; day : Z }.

(** The functions of CPython's [datetime] module the script relies on. *)
Definition is_leap (y : Z) : bool :=
  (y mod 4 =? 0) && (negb (y mod 100 =? 0) || (y mod 400 =? 0)).

Definition days_in_month (y m : Z) : Z :=
  if (m =? 2) && is_leap y then 29
  else match m with
       | 1 | 3 | 5 | 7 | 8 | 10 | 12 => 31
       | 4 | 6 | 9 | 11 => 30
       | 2 => 28
       | _ => 0
       end.

Definition days_before_year (y : Z) : Z :=
  let y' := y - 1 in y' * 365 + y' / 4 - y' / 100 + y' / 400.

Definition days_before_month (y m : Z) : Z :=
  match m with
  | 1 => 0 | 2 => 31 | 3 => 59 | 4 => 90 | 5 => 120 | 6 => 151
  | 7 => 181 | 8 => 212 | 9 => 243 | 10 => 273 | 11 => 304 | 12 => 334
  | _ => 0
  end + (if (2 <? m) && is_leap y then 1 else 0).

Definition ymd2ord (d : date) : Z :=
  days_before_year (year d) + days_before_month (year d) (month d) + day d.

(** Ordinal of 1970-01-01. *)
Definition epoch_ord : Z := 719163.

(** Seconds between 1970-01-01T00:00:00 and the wall-clock time
    [d h:mi:s], both read as naive date-times. *)
Definition wall_seconds (d : date) (h mi s : Z) : Z :=
  (ymd2ord d - epoch_ord) * 86400 + h * 3600 + mi * 60 + s.

Definition valid_date (d : date) : bool :=
  (1 <=? year d) && (year d <=? 9999)
  && (1 <=? month d) && (month d <=? 12)
  && (1 <=? day d) && (day d <=? days_in_month (year d) (month d)).

(** The classes [[0-9]], [[1-9]] ... of the patterns: ASCII digits only. *)
Definition ascii_digit (c : ascii) : option Z :=
  let n := Z.of_nat (nat_of_ascii c) in
  if (48 <=? n) && (n <=? 57) then Some (n - 48) else None.

Definition is_dash (c : ascii) : bool := Ascii.eqb c "-"%char.

Definition byte (c : ascii) : Z := Z.of_nat (nat_of_ascii c).

Definition continuation (c : ascii) : option Z :=
  if (128 <=? byte c) && (byte c <? 192) then Some (byte c - 128) else None.

(** A Python [str] is held as its UTF-8 bytes. [decode s] is the code
    point of the first character of [s] and what follows it. *)
Definition decode (s : string) : option (Z * string) :=
  match s with
  | EmptyString => None
  | String c0 r0 =>
      let b0 := byte c0 in
      if b0 <? 128 then Some (b0, r0)
      else if (192 <=? b0) && (b0 <? 224) then
        match r0 with
        | String c1 r1 =>
            x1 ← continuation c1;
            let cp := (b0 - 192) * 64 + x1 in
            if 128 <=? cp then Some (cp, r1) else None
        | _ => None
        end
      else if (224 <=? b0) && (b0 <? 240) then
        match r0 with
        | String c1 (String c2 r2) =>
            x1 ← continuation c1; x2 ← continuation c2;
            let cp := ((b0 - 224) * 64 + x1) * 64 + x2 in
            if 2048 <=? cp then Some (cp, r2) else None
        | _ => None
        end
      else if (240 <=? b0) && (b0 <? 248) then
        match r0 with
        | String c1 (String c2 (String c3 r3)) =>
            x1 ← continuation c1; x2 ← continuation c2; x3 ← continuation c3;
            let cp := (((b0 - 240) * 64 + x1) * 64 + x2) * 64 + x3 in
            if 65536 <=? cp then Some (cp, r3) else None
        | _ => None
        end
      else None
  end.

(** The code points of the digit zero of every run of decimal digits
    (category Nd) of Unicode 14.0, the database of CPython 3.11; each is
    followed by its digits one to nine. *)
Definition nd_zeros : list Z :=
  [48; 1632; 1776; 1984; 2406; 2534; 2662; 2790; 2918; 3046; 3174; 3302;
   3430; 3558; 3664; 3792; 3872; 4160; 4240; 6112; 6160; 6470; 6608; 6784;
   6800; 6992; 7088; 7232; 7248; 42528; 43216; 43264; 43472; 43504; 43600;
   44016; 65296; 66720; 68912; 69734; 69872; 69942; 70096; 70384; 70736;
   70864; 71248; 71360; 71472; 71904; 72016; 72784; 73040; 73120; 92768;
   92864; 93008; 120782; 120792; 120802; 120812; 120822; 123200; 123632;
   125264; 130032].

(** The value of a decimal digit, as [int] reads it. *)
Definition decimal (cp : Z) : option Z :=
  (λ zero, cp - zero)
    <$> List.find (λ zero, (zero <=? cp) && (cp <=? zero + 9)) nd_zeros.

(** [\d] of a [str] pattern: any decimal digit of Unicode. *)
Definition digit (s : string) : option (Z * string) :=
  '(cp, rest) ← decode s; d ← decimal cp; Some (d, rest).

(** [x|y]: the first alternative that matches. *)
Definition orelse {A : Type} (x y : option A) : option A :=
  match x with
  | Some _ => x
  | None => y
  end.

(** [%m] is the regular expression [1[0-2]|0[1-9]|[1-9]]; in the format
    it is followed by the literal [-]. Returns the month and what follows
    the dash. *)
Definition parse_month (s : string) : option (Z * string) :=
  let two :=
    match s with
    | String c1 (String c2 (String c3 t)) =>
        match ascii_digit c1, ascii_digit c2 with
        | Some a, Some b =>
            if is_dash c3
               && (((a =? 1) && (b <=? 2)) || ((a =? 0) && (1 <=? b)))
            then Some (10 * a + b, t) else None
        | _, _ => None
        end
    | _ => None
    end in
  let one :=
    match s with
    | String c1 (String c2 t) =>
        match ascii_digit c1 with
        | Some a => if is_dash c2 && (1 <=? a) then Some (a, t) else None
        | None => None
        end
    | _ => None
    end in
  orelse two one.

(** The alternatives of [%d], [3[0-1]|[1-2]\d|0[1-9]|[1-9]| [1-9]]: each
    gives the day and what follows it. *)
Definition day_3x (s : string) : option (Z * string) :=
  match s with
  | String c1 (String c2 t) =>
      match ascii_digit c1, ascii_digit c2 with
      | Some a, Some b => if (a =? 3) && (b <=? 1) then Some (10 * a + b, t) else None
      | _, _ => None
      end
  | _ => None
  end.

Definition day_12d (s : string) : option (Z * string) :=
  match s with
  | String c1 t1 =>
      match ascii_digit c1 with
      | Some a =>
          if (1 <=? a) && (a <=? 2)
          then '(b, t) ← digit t1; Some (10 * a + b, t)
          else None
      | None => None
      end
  | _ => None
  end.

Definition day_0x (s : string) : option (Z * string) :=
  match s with
  | String c1 (String c2 t) =>
      match ascii_digit c1, ascii_digit c2 with
      | Some a, Some b => if (a =? 0) && (1 <=? b) then Some (b, t) else None
      | _, _ => None
      end
  | _ => None
  end.

Definition day_x (s : string) : option (Z * string) :=
  match s with
  | String c1 t =>
      match ascii_digit c1 with
      | Some a => if 1 <=? a then Some (a, t) else None
      | None => None
      end
  | _ => None
  end.

Definition day_space_x (s : string) : option (Z * string) :=
  match s with
  | String c1 (String c2 t) =>
      match ascii_digit c2 with
      | Some b => if Ascii.eqb c1 " "%char && (1 <=? b) then Some (b, t) else None
      | None => None
      end
  | _ => None
  end.

(** [%d] ends the format: the first alternative that matches has to
    consume the rest of the string (otherwise: [ValueError], unconverted
    data remains). *)
Definition parse_day (s : string) : option Z :=
  match orelse (day_3x s) (orelse (day_12d s) (orelse (day_0x s)
                 (orelse (day_x s) (day_space_x s)))) with
  | Some (d, EmptyString) => Some d
  | _ => None
  end.

(** [datetime.strptime(s, '%Y-%m-%d')]: [None] stands for [ValueError].
    [%Y] is [\d\d\d\d]; the date is then built by the [datetime]
    constructor, which rejects year 0 and days the month does not have. *)
Definition strptime (s : string) : option date :=
  '(a, s1) ← digit s;
  '(b, s2) ← digit s1;
  '(c, s3) ← digit s2;
  '(d, s4) ← digit s3;
  match s4 with
  | String dash rest =>
      if is_dash dash then
        '(m, rest') ← parse_month rest;
        dd ← parse_day rest';
        let r := Date (1000 * a + 100 * b + 10 * c + d) m dd in
        if valid_date r then Some r else None
      else None
  | EmptyString => None
  end.

Definition digit_char (n : Z) : ascii :=
  ascii_of_nat (Z.to_nat (48 + n mod 10)).

Definition pad2 (n : Z) : string :=
  String (digit_char (n / 10)) (String (digit_char n) "").

Definition pad4 (n : Z) : string :=
  String (digit_char (n / 1000)) (String (digit_char (n / 100)) (pad2 n)).

(** A number without its leading zeros (its last digit stays). *)
Fixpoint drop_zeros (s : string) : string :=
  match s with
  | String c r =>
      if Ascii.eqb c "0"%char && negb (bool_decide (r = ""))
      then drop_zeros r else s
  | EmptyString => EmptyString
  end.

(** [d.strftime('%Y-%m-%d')] with the C library of Linux: [%Y] is the year
    without padding ([999-01-01]), [%m] and [%d] have two digits. *)
Definition strftime (d : date) : string :=
  drop_zeros (pad4 (year d)) +:+ "-" +:+ pad2 (month d) +:+ "-" +:+ pad2 (day d).

End Calendar.

(** The configured zone [CHINA_TZ], as far as the script uses it:
    [CHINA_TZ.localize(naive)] attaches to a naive wall-clock time the UTC
    offset the zone has (or, for a wall-clock time that a clock change
    skips or repeats, the offset [pytz] picks with [is_dst=False]).
    [utcoffset w] is that offset in seconds, [w] being the wall-clock time
    in seconds since 1970-01-01T00:00:00. The zone table itself belongs to
    [pytz], not to this repository. *)
Record TimeZone := { utcoffset : Z → Z }.

(** [int(CHINA_TZ.localize(datetime(y, m, d, h, mi, s)).timestamp())]. *)
Definition localized_timestamp (tz : TimeZone) (d : Calendar.date) (h mi s : Z) : Z :=
  let w := Calendar.wall_seconds d h mi s in
  w - utcoffset tz w.

(** A zone with one fixed offset, such as [pytz.UTC] (0) or Etc/GMT-8
    (+08:00 = 28800). *)
Definition fixed_zone (off : Z) : TimeZone := {| utcoffset := λ _, off |}.

(** The process-wide settings loaded by [load_config]. *)
Record Config := {
  FRIGATE_API_URL : string;
  SOURCE_PATH : string;
  DEST_PATH : string;
  EXPORT_RETENTION_DAYS : Z;
  EXPORT_DAYS_AGO : Z;
  CHINA_TZ : TimeZone;
}.

(** What a request to the platform comes back with: [requests] raised (any
    transport error), or a response with a status code. *)
Inductive response := TransportError | Status (code : Z).

(** Python truthiness of an optional string argument: [None] and [""] are
    both false. *)
Definition truthy (s : option string) : option string :=
  match s with
  | Some v => if bool_decide (v = "") then None else Some v
  | None => None
  end.

(* ===================================================================== *)
(** * [export_previous_day_recordings] *)
(* ===================================================================== *)

Module Requester.

(** One element of [exported_files]: [{"camera": ..., "date": ...}]. *)
Record exported_item := { item_camera : string; item_date : Z }.

(** A trigger request: POST [/api/export/<camera>/start/<s>/end/<e>]. *)
Record trigger := { trig_camera : string; trig_start : Z; trig_end : Z }.

(** What the [i]-th iteration of the camera loop meets: the exit flag at
    the top of the iteration, the outcome of the POST, and the reading of
    [time.time()] taken when the request is accepted. *)
Record attempt := { exit_flag : bool; post_outcome : response; accept_clock : Z }.

Record run := {
  exported_files : list exported_item;
  triggers : list trigger;
  export_start_times : gmap string Z;
}.

Inductive window := Window (start_timestamp end_timestamp : Z)
                  | InvalidDateFormat
                  | InvalidHourRange.

(** [response.status_code in [200, 201]]. *)
Definition accepted (r : response) : bool :=
  match r with
  | Status code => (code =? 200) || (code =? 201)
  | TransportError => false
  end.

Definition hour_range_ok (start_hour end_hour : Z) : bool :=
  (0 <=? start_hour) && (start_hour <=? 23)
  && (0 <=? end_hour) && (end_hour <=? 23)
  && (start_hour <=? end_hour).

(** [get_cameras()]: the keys of the platform's configuration, or the
    built-in list when the request fails. *)
Definition get_cameras (config_cameras : option (list string)) : list string :=
  match config_cameras with
  | Some cameras => cameras
  | None => ["tplink_ipc44aw"]
  end.

Section WithConfig.
Context (cfg : Config).
(** The calendar day of [now_china - timedelta(days=EXPORT_DAYS_AGO)]. *)
Context (default_day : Calendar.date).

(** Lines 130-157: the target day, the hour range, the two timestamps. *)
Definition resolve_window (date : option string) (time_range : option (Z * Z)) : window :=
  let target :=
    match truthy date with
    | Some s => Calendar.strptime s
    | None => Some default_day
    end in
  match target with
  | None => InvalidDateFormat
  | Some target_date =>
      let hours :=
        match time_range with
        | Some (start_hour, end_hour) =>
            if hour_range_ok start_hour end_hour
            then Some (start_hour, end_hour) else None
        | None => Some (0, 23)
        end in
      match hours with
      | None => InvalidHourRange
      | Some (start_hour, end_hour) =>
          Window (localized_timestamp (CHINA_TZ cfg) target_date start_hour 0 0)
                 (localized_timestamp (CHINA_TZ cfg) target_date end_hour 59 59)
      end
  end.

(** The loop over the cameras (lines 171-199). *)
Fixpoint trigger_loop (env : nat → attempt) (i : nat) (s e : Z)
    (cameras : list string) (times : gmap string Z) : run :=
  match cameras with
  | [] => {| exported_files := []; triggers := []; export_start_times := times |}
  | camera :: rest =>
      if exit_flag (env i) then
        {| exported_files := []; triggers := []; export_start_times := times |}
      else
        let t := {| trig_camera := camera; trig_start := s; trig_end := e |} in
        if accepted (post_outcome (env i)) then
          let r := trigger_loop env (S i) s e rest
                     (<[camera := accept_clock (env i)]> times) in
          {| exported_files :=
               {| item_camera := camera; item_date := s |} :: exported_files r;
             triggers := t :: triggers r;
             export_start_times := export_start_times r |}
        else
          let r := trigger_loop env (S i) s e rest times in
          {| exported_files := exported_files r;
             triggers := t :: triggers r;
             export_start_times := export_start_times r |}
  end.

Definition export_previous_day_recordings
    (config_cameras : option (list string)) (env : nat → attempt)
    (times : gmap string Z)
    (cameras : option (list string)) (date : option string)
    (time_range : option (Z * Z)) : run :=
  match resolve_window date time_range with
  | Window start_timestamp end_timestamp =>
      let cameras :=
        match cameras with
        | Some cs => cs
        | None => get_cameras config_cameras
        end in
      trigger_loop env 0 start_timestamp end_timestamp cameras times
  | _ => {| exported_files := []; triggers := []; export_start_times := times |}
  end.

End WithConfig.

(** The cameras the loop reaches: those before the first iteration that
    sees the exit flag. It does not look at any response. *)
Fixpoint attempted (exits : nat → bool) (i : nat) (cameras : list string) : list string :=
  match cameras with
  | [] => []
  | camera :: rest =>
      if exits i then [] else camera :: attempted exits (S i) rest
  end.

(** Of the cameras reached, those whose request was accepted. *)
Fixpoint accepted_cameras (env : nat → attempt) (i : nat) (cameras : list string) : list string :=
  match cameras with
  | [] => []
  | camera :: rest =>
      if exit_flag (env i) then []
      else if accepted (post_outcome (env i))
           then camera :: accepted_cameras env (S i) rest
           else accepted_cameras env (S i) rest
  end.

End Requester.

(* ===================================================================== *)
(** * [check_export_status] *)
(* ===================================================================== *)

(** An export record of [GET /api/exports]; a field is [None] when the key
    is absent from the JSON object. *)
Record ExportRecord := {
  rec_id : option string;
  rec_camera : option string;
  rec_name : option string;
  rec_video_path : option string;
  rec_in_progress : option bool;
}.

(** The disk at one moment: the size of whatever exists at a path.
    [os.path.exists("")] is false. *)
Definition path_size (disk : gmap string Z) (p : string) : option Z :=
  if bool_decide (p = "") then None else disk !! p.

(** Lines 277-286 (and 406-415): the date string the record names are
    searched for; [None] is the [ValueError] branch. *)
Definition target_date_str (default_day : Calendar.date) (date : option string) : option string :=
  match truthy date with
  | Some s => Calendar.strftime <$> Calendar.strptime s
  | None => Some (Calendar.strftime default_day)
  end.

Module Tracker.

(** One evaluation of the loop condition and, when the loop is entered,
    what the iteration meets. *)
Record tick := {
  clock : Z;                                   (* time.time() *)
  should_exit : bool;
  exports_response : option (list ExportRecord);   (* None: the request or its JSON failed *)
  disk : gmap string Z;
  set_order : list string;                     (* how the set is walked, see [pass_order] *)
}.

Record run := {
  returned : bool;
  pending_at_exit : gset string;   (* ∅ when the set was never built *)
  unresolved : list string;        (* the cameras the timeout warning names *)
  status_queries : nat;
  sleeps : nat;
  file_sizes_at_exit : gmap string Z;
}.

Definition unknown_path : string := "未知路径".

(** The order in which Python walks the set [pending_cameras]. It follows
    the hash table of the set, and string hashes differ from one process to
    the next, so the order belongs to the environment: the members are
    taken as [order] lists them, and members it leaves out come last.
    Every arrangement of the set is [pass_order order] for some [order]. *)
Definition pass_order (order : list string) (pending_cameras : gset string) : list string :=
  filter (λ c, c ∈ pending_cameras) (remove_dups order)
  ++ filter (λ c, c ∉ order) (elements pending_cameras).

Section WithConfig.
Context (cfg : Config).

Definition matches (camera target : string) (e : ExportRecord) : Prop :=
  rec_camera e = Some camera
  ∧ Path.contains target (default "" (rec_name e)) = true.

Definition in_progress (e : ExportRecord) : Prop :=
  default false (rec_in_progress e) = true.

(** Where the stability check and the progress report look for the
    file of a record. *)
Definition watched_path (e : ExportRecord) : string :=
  get_real_file_path (SOURCE_PATH cfg) (default unknown_path (rec_video_path e)).

(** Where the clean-up of the ledger looks. *)
Definition purged_path (e : ExportRecord) : string :=
  get_real_file_path (SOURCE_PATH cfg) (default "" (rec_video_path e)).

(** Lines 316-329: the loop over [camera_exports], with its [break]. *)
Fixpoint all_files_stable (disk : gmap string Z) (file_sizes : gmap string Z)
    (camera_exports : list ExportRecord) : bool * gmap string Z :=
  match camera_exports with
  | [] => (true, file_sizes)
  | export :: rest =>
      let real_path := watched_path export in
      match path_size disk real_path with
      | Some current_size =>
          let last_size := default current_size (file_sizes !! real_path) in
          let file_sizes' := <[real_path := current_size]> file_sizes in
          if negb (current_size =? last_size) then (false, file_sizes')
          else all_files_stable disk file_sizes' rest
      | None => all_files_stable disk file_sizes rest
      end
  end.

(** Lines 335-339. *)
Definition purge (file_sizes : gmap string Z) (camera_exports : list ExportRecord)
    : gmap string Z :=
  foldl (λ sizes export, delete (purged_path export) sizes) file_sizes camera_exports.

(** Lines 347-361, as far as the ledger is concerned. *)
Definition record_progress (disk : gmap string Z) (file_sizes : gmap string Z)
    (in_progress_exports : list ExportRecord) : gmap string Z :=
  foldl (λ sizes export,
           match path_size disk (watched_path export) with
           | Some size => <[watched_path export := size]> sizes
           | None => sizes
           end) file_sizes in_progress_exports.

(** The body of [for camera in list(pending_cameras)] (lines 306-361). *)
Definition check_camera (target : string) (exports : list ExportRecord)
    (disk : gmap string Z) (st : gset string * gmap string Z) (camera : string)
    : gset string * gmap string Z :=
  let '(pending_cameras, file_sizes) := st in
  let camera_exports := filter (matches camera target) exports in
  let in_progress_exports := filter in_progress camera_exports in
  match in_progress_exports, camera_exports with
  | [], _ :: _ =>
      let '(stable, file_sizes') := all_files_stable disk file_sizes camera_exports in
      if stable
      then (pending_cameras ∖ {[camera]}, purge file_sizes' camera_exports)
      else (pending_cameras, file_sizes')
  | _, [] => (pending_cameras, file_sizes)
  | _ :: _, _ => (pending_cameras, record_progress disk file_sizes in_progress_exports)
  end.

(** One pass over the pending cameras with the records of one query.
    [list(pending_cameras)] copies the set, in the order of the set,
    before the loop changes it. *)
Definition check_cameras (target : string) (exports : list ExportRecord)
    (disk : gmap string Z) (order : list string) (st : gset string * gmap string Z)
    : gset string * gmap string Z :=
  foldl (check_camera target exports disk) st (pass_order order st.1).

(** The [while] condition (line 294). *)
Definition within_deadline (start_time max_wait_time : Z) (t : tick) : bool :=
  (clock t - start_time <? max_wait_time) && negb (should_exit t).

Definition is_empty (s : gset string) : bool := bool_decide (s = ∅).

(** Lines 380-385; [', '.join(pending_cameras)] walks the set too. *)
Definition after_loop (order : list string) (pending_cameras : gset string)
    (file_sizes : gmap string Z) (queries naps : nat) : run :=
  {| returned := is_empty pending_cameras;
     pending_at_exit := pending_cameras;
     unresolved := pass_order order pending_cameras;
     status_queries := queries;
     sleeps := naps;
     file_sizes_at_exit := file_sizes |}.

(** The polling loop (lines 294-378). The list of ticks is what the
    environment offers at the successive evaluations of the loop
    condition; [None]: the list ended while the loop was still going. *)
Fixpoint poll_loop (target : string) (start_time max_wait_time : Z)
    (ticks : list tick) (pending_cameras : gset string)
    (file_sizes : gmap string Z) (queries naps : nat) : option run :=
  match ticks with
  | [] => None
  | t :: later =>
      if within_deadline start_time max_wait_time t
         && negb (is_empty pending_cameras)
      then
        match exports_response t with
        | None =>
            poll_loop target start_time max_wait_time later
              pending_cameras file_sizes (S queries) (S naps)
        | Some exports =>
            let '(pending', sizes') :=
              check_cameras target exports (disk t) (set_order t)
                (pending_cameras, file_sizes) in
            if is_empty pending'
            then Some {| returned := true;
                         pending_at_exit := pending';
                         unresolved := [];
                         status_queries := S queries;
                         sleeps := naps;
                         file_sizes_at_exit := sizes' |}
            else poll_loop target start_time max_wait_time later
                   pending' sizes' (S queries) (S naps)
        end
      else Some (after_loop (set_order t) pending_cameras file_sizes queries naps)
  end.

Definition check_export_status (default_day : Calendar.date)
    (start_time : Z) (ticks : list tick)
    (cameras : list string) (max_wait_time : Z) (date : option string)
    : option run :=
  match target_date_str default_day date with
  | None =>
      Some {| returned := false;
              pending_at_exit := ∅;
              unresolved := [];
              status_queries := 0;
              sleeps := 0;
              file_sizes_at_exit := ∅ |}
  | Some target =>
      poll_loop target start_time max_wait_time ticks
        (list_to_set cameras) ∅ 0 0
  end.

(** The pending set and the ledger after the polls of [ticks], whatever
    the clock says. *)
Definition poll (target : string) (st : gset string * gmap string Z) (t : tick)
    : gset string * gmap string Z :=
  match exports_response t with
  | None => st
  | Some exports => check_cameras target exports (disk t) (set_order t) st
  end.

Definition polls (target : string) (ticks : list tick)
    (st : gset string * gmap string Z) : gset string * gmap string Z :=
  foldl (poll target) st ticks.

End WithConfig.

End Tracker.

(* ===================================================================== *)
(** * [check_and_move_exported_files] *)
(* ===================================================================== *)

Module Relocator.

Inductive event :=
| MakeDirs (path : string)
| Move (src dst : string)
| DeleteRecord (export_id : string).

(** The regular files of the disk (path to size), and the directories
    [os.makedirs] has made sure of. *)
Record world := { files : gmap string Z; dirs : gset string }.

(** What the [i]-th iteration of the loop over [target_exports] meets: the
    exit flag; which paths lead to a directory, or to anything else that
    exists without being a regular file; what [shutil.move] does, given
    the source, the destination and the files: whether it returns (rather
    than raises) and the files it leaves, whatever it had to move (a file,
    or a directory with all that is in it); and the outcome of the DELETE
    request. *)
Record step := {
  exit_flag : bool;
  is_directory : string → bool;
  shutil_move : string → string → gmap string Z → bool * gmap string Z;
  delete_outcome : response;
}.

Record run := {
  world_after : world;
  moved_files : option Z;     (* the count of the closing log line; None: not reached *)
  events : list event;
}.

Section WithConfig.
Context (cfg : Config).

(** Lines 418-421; a record without a camera is in no camera list. *)
Definition is_target (cameras : list string) (target : string) (e : ExportRecord) : Prop :=
  rec_camera e ∈ (Some <$> cameras)
  ∧ default false (rec_in_progress e) = false
  ∧ Path.contains target (default "" (rec_name e)) = true.

(** [os.path.exists]: true of a regular file and of a directory alike,
    false of the empty path. *)
Definition path_exists (s : step) (fs : gmap string Z) (p : string) : bool :=
  bool_decide (is_Some (path_size fs p))
  || (negb (bool_decide (p = "")) && is_directory s p).

(** What a [shutil.move] that meets no obstacle does with a regular file. *)
Definition move_file (src dst : string) (fs : gmap string Z) : gmap string Z :=
  match fs !! src with
  | Some size => <[dst := size]> (delete src fs)
  | None => fs
  end.

(** The loop over [target_exports] (lines 425-466): the files after it,
    [moved_files], and what was done, in order. *)
Fixpoint move_loop (env : nat → step) (i : nat) (target_exports : list ExportRecord)
    (fs : gmap string Z) (moved : Z) : gmap string Z * Z * list event :=
  match target_exports with
  | [] => (fs, moved, [])
  | export :: rest =>
      if exit_flag (env i) then (fs, moved, [])
      else
        let video_path := default "" (rec_video_path export) in
        let real_path := get_real_file_path (SOURCE_PATH cfg) video_path in
        if bool_decide (video_path = "") || negb (path_exists (env i) fs real_path)
        then move_loop env (S i) rest fs moved
        else
          let filename := Path.basename real_path in
          let dest_file := Path.join (DEST_PATH cfg) filename in
          let outcome := shutil_move (env i) real_path dest_file fs in
          if outcome.1 then
            let export_id := default "" (rec_id export) in
            let deletion :=
              if bool_decide (export_id = "") then [] else [DeleteRecord export_id] in
            let '(fs'', moved', evs) := move_loop env (S i) rest outcome.2 (moved + 1) in
            (fs'', moved', Move real_path dest_file :: deletion ++ evs)
          else move_loop env (S i) rest outcome.2 moved
  end.

(** [exports_response]: [None] when the request or its JSON fails;
    [makedirs_ok]: whether [os.makedirs(DEST_PATH, exist_ok=True)]
    succeeds. Both failures end in the outer [except]. *)
Definition check_and_move_exported_files (default_day : Calendar.date)
    (exports_response : option (list ExportRecord)) (makedirs_ok : bool)
    (env : nat → step) (w : world)
    (cameras : list string) (date : option string) : run :=
  match exports_response with
  | None => {| world_after := w; moved_files := None; events := [] |}
  | Some exports =>
      if negb makedirs_ok
      then {| world_after := w; moved_files := None; events := [] |}
      else
        let w1 := {| files := files w; dirs := dirs w ∪ {[DEST_PATH cfg]} |} in
        match target_date_str default_day date with
        | None =>
            {| world_after := w1; moved_files := None;
               events := [MakeDirs (DEST_PATH cfg)] |}
        | Some target =>
            let target_exports := filter (is_target cameras target) exports in
            let '(fs, moved, evs) := move_loop env 0 target_exports (files w1) 0 in
            {| world_after := {| files := fs; dirs := dirs w1 |};
               moved_files := Some moved;
               events := MakeDirs (DEST_PATH cfg) :: evs |}
        end
  end.

End WithConfig.

(** The number of moves carried out among the actions of a run. *)
Fixpoint moves (evs : list event) : Z :=
  match evs with
  | [] => 0
  | Move _ _ :: later => 1 + moves later
  | _ :: later => moves later
  end.

End Relocator.

(* ===================================================================== *)
(** * [clean_old_exports] *)
(* ===================================================================== *)

Module Sweeper.

(** An entry of [os.listdir(DEST_PATH)] with what [os.path.isfile] and
    [os.path.getmtime] say about it. *)
Record entry := { name : string; is_file : bool; mtime : Z }.

(** What the [i]-th iteration of the loop meets: the exit flag and
    whether [os.remove] succeeds. *)
Record step := { exit_flag : bool; remove_ok : bool }.

Record run := {
  deleted : list string;
  cleaned_files : option Z;      (* None: the count line was not reached *)
  remaining : option (list entry);
}.

Section WithConfig.
Context (cfg : Config).
(** The UTC offset of the zone of the machine at an instant:
    [datetime.fromtimestamp(t)] is the naive wall-clock time
    [t + system_offset t]. *)
Context (system_offset : Z → Z).

(** Lines 495-500: [CHINA_TZ.localize(datetime.fromtimestamp(mtime))],
    as an instant. ([fromtimestamp] without [tz] returns a naive value,
    so the [astimezone] branch is never taken.) *)
Definition file_modified (mtime : Z) : Z :=
  let naive := mtime + system_offset mtime in
  naive - utcoffset (CHINA_TZ cfg) naive.

(** [now_china - timedelta(days=EXPORT_RETENTION_DAYS)], as an instant. *)
Definition cutoff_date (now : Z) : Z := now - EXPORT_RETENTION_DAYS cfg * 86400.

Definition expired (now : Z) (e : entry) : bool :=
  is_file e && (file_modified (mtime e) <? cutoff_date now).

(** The loop over the directory (lines 488-508): the names deleted and
    the entries left. *)
Fixpoint sweep (now : Z) (env : nat → step) (i : nat) (entries : list entry)
    : list string * list entry :=
  match entries with
  | [] => ([], [])
  | e :: rest =>
      if exit_flag (env i) then ([], entries)
      else
        let '(gone, kept) := sweep now env (S i) rest in
        if expired now e && remove_ok (env i)
        then (name e :: gone, kept)
        else (gone, e :: kept)
  end.

(** [listing]: the entries of [DEST_PATH], [None] when it does not
    exist. *)
Definition clean_old_exports (now : Z) (env : nat → step)
    (listing : option (list entry)) : run :=
  match listing with
  | None => {| deleted := []; cleaned_files := None; remaining := None |}
  | Some entries =>
      let '(gone, kept) := sweep now env 0 entries in
      {| deleted := gone;
         cleaned_files := Some (Z.of_nat (List.length gone));
         remaining := Some kept |}
  end.

End WithConfig.

End Sweeper.

(* ===================================================================== *)
(** * Runs that watch a single record *)
(* ===================================================================== *)

Module Scenario.

(** The record [e] as the platform reports it while the export is
    running, or once it is done. *)
Definition with_progress (e : ExportRecord) (running : bool) : ExportRecord :=
  {| rec_id := rec_id e;
     rec_camera := rec_camera e;
     rec_name := rec_name e;
     rec_video_path := rec_video_path e;
     rec_in_progress := Some running |}.

(** A poll at clock [cs.1] that gets [e] as the only record and finds its
    file with size [cs.2]. *)
Definition reading (cfg : Config) (e : ExportRecord) (running : bool)
    (cs : Z * Z) : Tracker.tick :=
  {| Tracker.clock := cs.1;
     Tracker.should_exit := false;
     Tracker.exports_response := Some [with_progress e running];
     Tracker.disk := {[ Tracker.watched_path cfg e := cs.2 ]};
     Tracker.set_order := [] |}.

(** Every reading differs from the one before it, [prev] being the one
    before the first. *)
Fixpoint keeps_changing (prev : Z) (readings : list (Z * Z)) : Prop :=
  match readings with
  | [] => True
  | cs :: later => cs.2 ≠ prev ∧ keeps_changing cs.2 later
  end.

(** The size of the last reading ([prev] when there is none). *)
Fixpoint last_size (prev : Z) (readings : list (Z * Z)) : Z :=
  match readings with
  | [] => prev
  | cs :: later => last_size cs.2 later
  end.

End Scenario.

(* ===================================================================== *)
(** * Concrete settings and inputs used by the examples *)
(* ===================================================================== *)

Module Sample.

(** Settings as in the sample [config.ini], with a zone fixed at UTC+8
    (the offset of Asia/Shanghai since 1992; the zone had summer time from
    1986 to 1991, and the examples stay clear of those years). *)
Definition cfg : Config :=
  {| FRIGATE_API_URL := "http://frigate:5000";
     SOURCE_PATH := "/data/exports";
     DEST_PATH := "/backup/exports";
     EXPORT_RETENTION_DAYS := 30;
     EXPORT_DAYS_AGO := 1;
     CHINA_TZ := fixed_zone 28800 |}.

Definition day : Calendar.date := Calendar.Date 2024 1 1.





Definition cam : string := "front".

Definition video : string := "/media/frigate/exports/front_2024-01-01.mp4".

Definition on_disk : string := "/data/exports/front_2024-01-01.mp4".

Definition record (running : bool) : ExportRecord :=
  {| rec_id := Some "a1b2";
     rec_camera := Some cam;
     rec_name := Some "front 2024-01-01 00:00 - 23:59";
     rec_video_path := Some video;
     rec_in_progress := Some running |}.

(** A poll at clock [c] that sees the record and, with [Some size], its
    file. *)
Definition seen (c : Z) (running : bool) (size : option Z) : Tracker.tick :=
  {| Tracker.clock := c;
     Tracker.should_exit := false;
     Tracker.exports_response := Some [record running];
     Tracker.disk := match size with
                     | Some s => {[ on_disk := s ]}
                     | None => ∅
                     end;
     Tracker.set_order := [] |}.

(** Every request accepted, nothing interrupts. *)
Definition all_accepted : nat → Requester.attempt :=
  λ i, {| Requester.exit_flag := false;
          Requester.post_outcome := Status 200;
          Requester.accept_clock := 1704153600 + Z.of_nat i |}.

(** The second request fails with status 500, the third with a transport
    error. *)
Definition some_fail : nat → Requester.attempt :=
  λ i, {| Requester.exit_flag := false;
          Requester.post_outcome :=
            match i with
            | 1%nat => Status 500
            | 2%nat => TransportError
            | _ => Status 201
            end;
          Requester.accept_clock := 1704153600 + Z.of_nat i |}.

Definition smooth : nat → Relocator.step :=
  λ _, {| Relocator.exit_flag := false;
          Relocator.is_directory := λ _, false;
          Relocator.shutil_move := λ src dst fs, (true, Relocator.move_file src dst fs);
          Relocator.delete_outcome := Status 200 |}.

Definition removable : nat → Sweeper.step :=
  λ _, {| Sweeper.exit_flag := false; Sweeper.remove_ok := true |}.

(** 2023-11-14T22:13:20Z. *)
Definition now : Z := 1700000000.

(** A file written 29 days and 23 hours before [now]: one hour younger
    than the 30-day cut-off. *)
Definition recent_file : Sweeper.entry :=
  {| Sweeper.name := "front_2023-10-15.mp4";
     Sweeper.is_file := true;
     Sweeper.mtime := now - 30 * 86400 + 3600 |}.

(** The machine runs on UTC. *)
Definition utc_machine : Z → Z := λ _, 0.

(** The machine runs on the configured zone (UTC+8). *)
Definition shanghai_machine : Z → Z := λ _, 28800.

End Sample.

(* ===================================================================== *)
(** * [format_duration] *)
(* ===================================================================== *)

Module Duration.

(** [format_duration(seconds)] for a whole number of seconds: [//] and [%]
    are Python's floor division and modulo, which are [Z.div] and
    [Z.modulo]; [pretty] prints an integer as [str] does. *)
Definition format_duration (seconds : Z) : string :=
  let hours := seconds / 3600 in
  let minutes := (seconds mod 3600) / 60 in
  let secs := seconds mod 60 in
  if 0 <? hours then
    pretty hours +:+ "小时" +:+ pretty minutes +:+ "分钟" +:+ pretty secs +:+ "秒"
  else if 0 <? minutes then
    pretty minutes +:+ "分钟" +:+ pretty secs +:+ "秒"
  else
    pretty secs +:+ "秒".

End Duration.

(* ===================================================================== *)
(** * [load_config] *)
(* ===================================================================== *)

Module Settings.

(** What [config.get('frigate', option)] comes to: the option is missing
    ([NoOptionError], unless a fallback is given), reading it raises (a
    value with a [%] that the interpolation of [ConfigParser] cannot
    expand), or the value. *)
Inductive lookup :=
| Missing
| Raises
| Value (v : string).

(** What [config.read(config_file)] leaves behind: it raises (the file is
    no INI file), it read nothing, or a parsed file, of which the script
    looks at the section [frigate] only ([None]: there is no such
    section). *)
Inductive read_result :=
| Malformed
| Unreadable
| Parsed (frigate : option (string → lookup)).

(** [pytz.timezone(name)]: [UnknownTimeZoneError], another exception, or
    the zone. *)
Inductive zone_lookup :=
| UnknownZone
| ZoneError
| Zone (tz : TimeZone).

(** How [load_config] ends: the settings are in place, [sys.exit(1)], or
    an exception that nothing catches. *)
Inductive load :=
| Loaded (cfg : Config)
| Exit1
| Uncaught.

Section WithLibraries.
(** [int(value)] of [getint]; [None] is its [ValueError]. *)
Context (parse_int : string → option Z).
Context (zone_of : string → zone_lookup).
(** [pytz.UTC]. *)
Context (utc : TimeZone).

(** [config.getint('frigate', option, fallback=...)]: the fallback stands
    in for a missing option, not for a value that is not an integer nor
    for one that cannot be read. [None]: an exception. *)
Definition getint (get : string → lookup) (option_name : string)
    (fallback : option Z) : option Z :=
  match get option_name with
  | Value value => parse_int value
  | Missing => fallback
  | Raises => None
  end.

(** [config.get('frigate', 'timezone', fallback='Asia/Shanghai')]. *)
Definition timezone_name (get : string → lookup) : option string :=
  match get "timezone" with
  | Value name => Some name
  | Missing => Some "Asia/Shanghai"
  | Raises => None
  end.

(** Lines 71-76. [None]: an exception other than [UnknownTimeZoneError],
    which the outer [except] turns into [sys.exit(1)]. *)
Definition zone_named (name : string) : option TimeZone :=
  match zone_of name with
  | Zone tz => Some tz
  | UnknownZone => Some utc
  | ZoneError => None
  end.

(** [load_config(config_file)]. *)
Definition load_config (file : read_result) : load :=
  match file with
  | Malformed => Uncaught
  | Unreadable => Exit1
  | Parsed None => Exit1
  | Parsed (Some get) =>
      match get "api_url", get "source_path", get "dest_path",
            getint get "export_retention_days" None,
            getint get "export_days_ago" (Some 1),
            timezone_name get ≫= zone_named with
      | Value api_url, Value source_path, Value dest_path,
        Some retention, Some days_ago, Some tz =>
          Loaded {| FRIGATE_API_URL := api_url;
                    SOURCE_PATH := source_path;
                    DEST_PATH := dest_path;
                    EXPORT_RETENTION_DAYS := retention;
                    EXPORT_DAYS_AGO := days_ago;
                    CHINA_TZ := tz |}
      | _, _, _, _, _, _ => Exit1
      end
  end.

End WithLibraries.

End Settings.

(* ===================================================================== *)
(** * [main] *)
(* ===================================================================== *)

Module Pipeline.

(** The parsed command line. *)
Record args := {
  arg_cameras : option (list string);
  arg_date : option string;
  arg_start_hour : Z;
  arg_end_hour : Z;
  arg_config : option string;
}.

(** Everything the four stages meet, stage by stage; each stage reads the
    clock for itself, so each has its own default day. *)
Record env := {
  config_cameras : option (list string);
  export_day : Calendar.date;
  export_env : nat → Requester.attempt;
  exit_after_export : bool;
  status_day : Calendar.date;
  status_start : Z;
  status_ticks : list Tracker.tick;
  exit_after_status : bool;
  move_day : Calendar.date;
  move_exports : option (list ExportRecord);
  makedirs_ok : bool;
  move_env : nat → Relocator.step;
  world : Relocator.world;
  exit_after_move : bool;
  machine_offset : Z → Z;
  sweep_now : Z;
  sweep_env : nat → Sweeper.step;
  listing : option (list Sweeper.entry);
}.

(** What [main] did: the result of each stage it ran. *)
Record stages := {
  exported : Requester.run;
  status : option Tracker.run;
  relocation : option Relocator.run;
  sweep : option Sweeper.run;
}.

Inductive outcome :=
| Exit (code : Z)
| Returned (done : stages).

(** [all([FRIGATE_API_URL, SOURCE_PATH, DEST_PATH, EXPORT_RETENTION_DAYS])]. *)
Definition complete (cfg : Config) : bool :=
  negb (bool_decide (FRIGATE_API_URL cfg = ""))
  && negb (bool_decide (SOURCE_PATH cfg = ""))
  && negb (bool_decide (DEST_PATH cfg = ""))
  && negb (EXPORT_RETENTION_DAYS cfg =? 0).

(** Lines 553-556. *)
Definition time_range_of (a : args) : option (Z * Z) :=
  if negb (arg_start_hour a =? 0) || negb (arg_end_hour a =? 23)
  then Some (arg_start_hour a, arg_end_hour a)
  else None.

(** Lines 546-551. *)
Definition cameras_of (a : args) (v : env) : list string :=
  match arg_cameras a with
  | None => Requester.get_cameras (config_cameras v)
  | Some cameras => cameras
  end.

(** Steps 3 and 4 of [main] (lines 573-584). *)
Definition move_and_clean (cfg : Config) (a : args) (v : env)
    (exported_cameras : Requester.run) (waited : option Tracker.run) : outcome :=
  let exported_camera_names :=
    map Requester.item_camera (Requester.exported_files exported_cameras) in
  let moved :=
    Relocator.check_and_move_exported_files cfg (move_day v) (move_exports v)
      (makedirs_ok v) (move_env v) (world v) exported_camera_names (arg_date a) in
  if exit_after_move v then
    Returned {| exported := exported_cameras; status := waited;
                relocation := Some moved; sweep := None |}
  else
    Returned {| exported := exported_cameras; status := waited;
                relocation := Some moved;
                sweep := Some (Sweeper.clean_old_exports cfg (machine_offset v)
                                 (sweep_now v) (sweep_env v) (listing v)) |}.

(** [main()] once the settings are loaded (lines 533-584). [None]: the
    polling loop was still going when the ticks of the environment ended. *)
Definition main (cfg : Config) (a : args) (v : env) : option outcome :=
  if negb (complete cfg) then Some (Exit 1)
  else
    let cameras := cameras_of a v in
    let exported_cameras :=
      Requester.export_previous_day_recordings cfg (export_day v)
        (config_cameras v) (export_env v) ∅ (Some cameras) (arg_date a)
        (time_range_of a) in
    let exported_camera_names :=
      map Requester.item_camera (Requester.exported_files exported_cameras) in
    if exit_after_export v then
      Some (Returned {| exported := exported_cameras; status := None;
                        relocation := None; sweep := None |})
    else
      match Requester.exported_files exported_cameras with
      | [] => Some (move_and_clean cfg a v exported_cameras None)
      | _ :: _ =>
          match Tracker.check_export_status cfg (status_day v) (status_start v)
                  (status_ticks v) exported_camera_names 7200 (arg_date a) with
          | None => None
          | Some waited =>
              if exit_after_status v then
                Some (Returned {| exported := exported_cameras; status := Some waited;
                                  relocation := None; sweep := None |})
              else Some (move_and_clean cfg a v exported_cameras (Some waited))
          end
      end.

End Pipeline.

(* ===================================================================== *)
(** * A complete run, for the examples *)
(* ===================================================================== *)

Module Fixture.

Definition yard_video : string := "/media/frigate/exports/yard_2024-01-01.mp4".

Definition yard_on_disk : string := "/data/exports/yard_2024-01-01.mp4".

Definition yard_record : ExportRecord :=
  {| rec_id := Some "e5f6";
     rec_camera := Some "yard";
     rec_name := Some "yard 2024-01-01 00:00 - 23:59";
     rec_video_path := Some yard_video;
     rec_in_progress := Some false |}.

(** [--cameras front yard --date 2024-01-01]. *)
Definition args : Pipeline.args :=
  {| Pipeline.arg_cameras := Some [Sample.cam; "yard"];
     Pipeline.arg_date := Some "2024-01-01";
     Pipeline.arg_start_hour := 0;
     Pipeline.arg_end_hour := 23;
     Pipeline.arg_config := None |}.

(** The request for the first camera is accepted, the one for the second
    is refused; the export of the first is done at the second poll; the
    files of both cameras are on disk. *)
Definition env : Pipeline.env :=
  {| Pipeline.config_cameras := None;
     Pipeline.export_day := Sample.day;
     Pipeline.export_env := Sample.some_fail;
     Pipeline.exit_after_export := false;
     Pipeline.status_day := Sample.day;
     Pipeline.status_start := 0;
     Pipeline.status_ticks :=
       [Sample.seen 0 true (Some 100); Sample.seen 30 false (Some 100)];
     Pipeline.exit_after_status := false;
     Pipeline.move_day := Sample.day;
     Pipeline.move_exports := Some [Sample.record false; yard_record];
     Pipeline.makedirs_ok := true;
     Pipeline.move_env := Sample.smooth;
     Pipeline.world :=
       {| Relocator.files := {[ Sample.on_disk := 100; yard_on_disk := 5 ]};
          Relocator.dirs := ∅ |};
     Pipeline.exit_after_move := false;
     Pipeline.machine_offset := Sample.shanghai_machine;
     Pipeline.sweep_now := Sample.now;
     Pipeline.sweep_env := Sample.removable;
     Pipeline.listing := Some [Sample.recent_file] |}.

(** Every request refused. *)
Definition all_refused : nat → Requester.attempt :=
  λ i, {| Requester.exit_flag := false;
          Requester.post_outcome := Status 500;
          Requester.accept_clock := 0 |}.

Definition env_refused : Pipeline.env :=
  {| Pipeline.config_cameras := None;
     Pipeline.export_day := Sample.day;
     Pipeline.export_env := all_refused;
     Pipeline.exit_after_export := false;
     Pipeline.status_day := Sample.day;
     Pipeline.status_start := 0;
     Pipeline.status_ticks := [];
     Pipeline.exit_after_status := false;
     Pipeline.move_day := Sample.day;
     Pipeline.move_exports := Some [Sample.record false; yard_record];
     Pipeline.makedirs_ok := true;
     Pipeline.move_env := Sample.smooth;
     Pipeline.world :=
       {| Relocator.files := {[ Sample.on_disk := 100; yard_on_disk := 5 ]};
          Relocator.dirs := ∅ |};
     Pipeline.exit_after_move := false;
     Pipeline.machine_offset := Sample.shanghai_machine;
     Pipeline.sweep_now := Sample.now;
     Pipeline.sweep_env := Sample.removable;
     Pipeline.listing := Some [Sample.recent_file] |}.

(** A [config.ini] without [export_days_ago] and with a zone name that
    [pytz] does not know. *)
Definition section (option_name : string) : Settings.lookup :=
  default Settings.Missing
    (Settings.Value
       <$> ({[ "api_url" := "http://frigate:5000"; "source_path" := "/data/exports";
               "dest_path" := "/backup/exports"; "export_retention_days" := "30";
               "timezone" := "Mars/Olympus" ]} : gmap string string) !! option_name).

(** The same file with [api_url = http://frigate:5000/%] : the lone [%]
    makes [config.get] raise. *)
Definition section_with_percent (option_name : string) : Settings.lookup :=
  if bool_decide (option_name = "api_url") then Settings.Raises
  else section option_name.

Definition parse_int (v : string) : option Z :=
  if bool_decide (v = "30") then Some 30 else None.

End Fixture.

(* ===================================================================== *)
(** * The ledger against the disk *)
(* ===================================================================== *)

(** Every file of the records that exists on disk has the size the ledger
    holds for it, or the ledger holds none: what the stability check of
    [check_export_status] looks for. *)
Definition ledger_agrees (cfg : Config) (disk : gmap string Z)
    (file_sizes : gmap string Z) (camera_exports : list ExportRecord) : Prop :=
  ∀ e size,
    e ∈ camera_exports →
    path_size disk (Tracker.watched_path cfg e) = Some size →
    file_sizes !! Tracker.watched_path cfg e = None
    ∨ file_sizes !! Tracker.watched_path cfg e = Some size.

(* ===================================================================== *)
(** * Path resolution *)
(* ===================================================================== *)

Section PathFacts.

Import Path.

Lemma basename_no_sep (p : string) : has_sep (basename p) = false.
Proof.
  induction p as [|c r IH]; [reflexivity|].
  simpl. destruct (has_sep r) eqn:Hr; [exact IH|].
  destruct (is_sep c) eqn:Hc; [exact Hr|].
  simpl. rewrite Hc, Hr. reflexivity.
Qed.

Lemma basename_suffix (p : string) : ∃ dir, p = dir +:+ basename p.
Proof.
  induction p as [|c r [dir IH]]; [by exists ""|].
  simpl. destruct (has_sep r).
  - exists (String c dir).
    change (String c r = String c (dir +:+ basename r)). by f_equal.
  - destruct (is_sep c).
    + by exists (String c "").
    + by exists "".
Qed.

Lemma no_sep_not_absolute (b : string) : has_sep b = false → startswith_sep b = false.
Proof. destruct b as [|c r]; simpl; [done|]. by intros [? ?]%orb_false_iff. Qed.

Lemma join_basename (a p : string) :
  join a (basename p) = a +:+ join_sep a +:+ basename p.
Proof.
  unfold join. by rewrite (no_sep_not_absolute _ (basename_no_sep p)).
Qed.

End PathFacts.

(** C7. [get_real_file_path] is a total function (no input makes it raise):
    the empty path gives the empty string, and every other path gives
    [os.path.join(SOURCE_PATH, os.path.basename(video_path))], which is the
    source directory, a separator where one is needed, and the part of the
    input after its last separator. *)
Theorem get_real_file_path_resolves (src video_path : string) :
  (video_path = "" → get_real_file_path src video_path = "")
  ∧ (video_path ≠ "" →
     get_real_file_path src video_path = Path.join src (Path.basename video_path)
     ∧ get_real_file_path src video_path
       = src +:+ Path.join_sep src +:+ Path.basename video_path
     ∧ Path.has_sep (Path.basename video_path) = false
     ∧ ∃ dir, video_path = dir +:+ Path.basename video_path).
Proof.
  unfold get_real_file_path. split.
  - intros ->. reflexivity.
  - intros Hne. rewrite bool_decide_eq_false_2 by exact Hne.
    repeat split.
    + apply join_basename.
    + apply basename_no_sep.
    + apply basename_suffix.
Qed.

Lemma get_real_file_path_resolves_witness :
  get_real_file_path "/data/exports" "" = ""
  ∧ get_real_file_path "/data/exports" Sample.video = Sample.on_disk.
Proof.
  split.
  - apply (get_real_file_path_resolves "/data/exports" ""). reflexivity.
  - destruct (get_real_file_path_resolves "/data/exports" Sample.video) as [_ H].
    destruct H as [H _]; [discriminate|].
    rewrite H. reflexivity.
Defined.

(* ===================================================================== *)
(** * The time window and the trigger requests *)
(* ===================================================================== *)

Section RequesterFacts.

Import Requester.

Context (cfg : Config) (default_day : Calendar.date).

Lemma strptime_empty : Calendar.strptime "" = None.
Proof. reflexivity. Qed.

Lemma truthy_Some (s : string) : s ≠ "" → truthy (Some s) = Some s.
Proof. intros H. unfold truthy. by rewrite bool_decide_eq_false_2. Qed.

Lemma resolve_window_bad_date (s : string) (time_range : option (Z * Z)) :
  s ≠ "" → Calendar.strptime s = None →
  resolve_window cfg default_day (Some s) time_range = InvalidDateFormat.
Proof.
  intros Hne Hs. unfold resolve_window. rewrite (truthy_Some _ Hne), Hs. reflexivity.
Qed.

Lemma hour_range_ok_spec (a b : Z) :
  hour_range_ok a b = true ↔ 0 ≤ a ≤ 23 ∧ 0 ≤ b ≤ 23 ∧ a ≤ b.
Proof. unfold hour_range_ok. rewrite !andb_true_iff, !Z.leb_le. lia. Qed.

Lemma resolve_window_bad_hours (date : option string) (a b : Z) :
  ¬ (0 ≤ a ≤ 23 ∧ 0 ≤ b ≤ 23 ∧ a ≤ b) →
  ∀ s e, resolve_window cfg default_day date (Some (a, b)) ≠ Window s e.
Proof.
  intros Hbad s e. unfold resolve_window.
  destruct (match truthy date with Some s0 => _ | None => _ end); [|discriminate].
  destruct (hour_range_ok a b) eqn:Hok; [|discriminate].
  apply hour_range_ok_spec in Hok. contradiction.
Qed.

Lemma attempted_all (exits : nat → bool) (cameras : list string) :
  (∀ i, exits i = false) → ∀ i, attempted exits i cameras = cameras.
Proof.
  intros Hno. induction cameras as [|c rest IH]; intros i; simpl; [done|].
  rewrite Hno. by rewrite IH.
Qed.

Lemma trigger_loop_lists (env : nat → attempt) (s e : Z) (cameras : list string) :
  ∀ i times,
    let r := trigger_loop env i s e cameras times in
    exported_files r
      = map (λ c, {| item_camera := c; item_date := s |})
            (accepted_cameras env i cameras)
    ∧ triggers r
      = map (λ c, {| trig_camera := c; trig_start := s; trig_end := e |})
            (attempted (λ k, exit_flag (env k)) i cameras).
Proof.
  induction cameras as [|c rest IH]; intros i times; simpl; [done|].
  destruct (exit_flag (env i)); [done|].
  destruct (accepted (post_outcome (env i))); simpl;
    edestruct IH as [-> ->]; done.
Qed.

Lemma accepted_cameras_spec (env : nat → attempt) (cameras : list string) (c : string) :
  ∀ i,
    c ∈ accepted_cameras env i cameras
    ↔ ∃ k, cameras !! k = Some c
           ∧ (∀ j, (j ≤ k)%nat → exit_flag (env (i + j)%nat) = false)
           ∧ accepted (post_outcome (env (i + k)%nat)) = true.
Proof.
  induction cameras as [|c0 rest IH]; intros i; simpl.
  - split; [by intros ?%elem_of_nil | by intros (k & ? & _)].
  - destruct (exit_flag (env i)) eqn:Hexit.
    + split; [by intros ?%elem_of_nil|].
      intros (k & _ & Hj & _). specialize (Hj 0%nat ltac:(lia)).
      rewrite Nat.add_0_r in Hj. congruence.
    + assert (Hshift : ∀ k,
                (∀ j, (j ≤ S k)%nat → exit_flag (env (i + j)%nat) = false)
                ↔ (∀ j, (j ≤ k)%nat → exit_flag (env (S i + j)%nat) = false)).
      { intros k. split; intros H j Hj.
        - replace (S i + j)%nat with (i + S j)%nat by lia. apply H. lia.
        - destruct j as [|j]; [by rewrite Nat.add_0_r|].
          replace (i + S j)%nat with (S i + j)%nat by lia. apply H. lia. }
      destruct (accepted (post_outcome (env i))) eqn:Hacc.
      * rewrite elem_of_cons, IH. split.
        -- intros [->|(k & Hk & Hj & Ha)].
           ++ exists 0%nat. rewrite Nat.add_0_r. split_and!; [done| |done].
              intros j Hj. assert (j = 0%nat) as -> by lia.
              by rewrite Nat.add_0_r.
           ++ exists (S k). replace (i + S k)%nat with (S i + k)%nat by lia.
              split_and!; [done| |done]. by apply Hshift.
        -- intros ([|k] & Hk & Hj & Ha).
           ++ left. simpl in Hk. congruence.
           ++ right. exists k. replace (S i + k)%nat with (i + S k)%nat by lia.
              split_and!; [done| |done].
              intros j Hle. replace (S i + j)%nat with (i + S j)%nat by lia.
              apply Hj. lia.
      * rewrite IH. split.
        -- intros (k & Hk & Hj & Ha). exists (S k).
           replace (i + S k)%nat with (S i + k)%nat by lia.
           split_and!; [done| |done]. by apply Hshift.
        -- intros ([|k] & Hk & Hj & Ha).
           ++ rewrite Nat.add_0_r in Ha. congruence.
           ++ exists k. replace (S i + k)%nat with (i + S k)%nat by lia.
              split_and!; [done| |done].
              intros j Hle. replace (S i + j)%nat with (i + S j)%nat by lia.
              apply Hj. lia.
Qed.

(** The start-time map after the loop: untouched for a camera that was
    not accepted, the clock of an accepted request otherwise. *)
Lemma trigger_loop_times (env : nat → attempt) (s e : Z) (cameras : list string)
    (c : string) :
  ∀ i times,
    let r := trigger_loop env i s e cameras times in
    (c ∉ accepted_cameras env i cameras → export_start_times r !! c = times !! c)
    ∧ (c ∈ accepted_cameras env i cameras →
       ∃ k, cameras !! k = Some c
            ∧ accepted (post_outcome (env (i + k)%nat)) = true
            ∧ export_start_times r !! c = Some (accept_clock (env (i + k)%nat))).
Proof.
  induction cameras as [|c0 rest IH]; intros i times; simpl.
  - split; [done | by intros ?%elem_of_nil].
  - destruct (exit_flag (env i)); simpl.
    { split; [done | by intros ?%elem_of_nil]. }
    destruct (accepted (post_outcome (env i))) eqn:Hacc; simpl.
    + destruct (IH (S i) (<[c0 := accept_clock (env i)]> times)) as [IH1 IH2].
      split.
      * intros Hnot. rewrite not_elem_of_cons in Hnot. destruct Hnot as [Hne Hnot].
        rewrite (IH1 Hnot). by rewrite lookup_insert_ne.
      * intros Hin.
        destruct (decide (c ∈ accepted_cameras env (S i) rest)) as [Hr|Hr].
        -- destruct (IH2 Hr) as (k & Hk & Ha & Ht). exists (S k).
           replace (i + S k)%nat with (S i + k)%nat by lia. done.
        -- rewrite elem_of_cons in Hin. destruct Hin as [->|Hin]; [|done].
           exists 0%nat. rewrite Nat.add_0_r. split_and!; [done|done|].
           rewrite (IH1 Hr). by rewrite lookup_insert_eq.
    + destruct (IH (S i) times) as [IH1 IH2]. split; [exact IH1|].
      intros Hin. destruct (IH2 Hin) as (k & Hk & Ha & Ht). exists (S k).
      replace (i + S k)%nat with (S i + k)%nat by lia. done.
Qed.

End RequesterFacts.

(** C4, as the code has it. A date string that is given, not empty, and is
    not a [%Y-%m-%d] date, or an hour range with a component outside 0..23
    or with its start after its end, makes
    [export_previous_day_recordings] return the empty list without a single
    trigger request (and without touching the start-time map). The empty
    date string counts as no date: the call does what it does without a
    date, which is to export the default day. *)
Theorem export_rejects_malformed_input (cfg : Config) (default_day : Calendar.date)
    (config_cameras : option (list string)) (env : nat → Requester.attempt)
    (times : gmap string Z) (cameras : option (list string))
    (date : option string) (time_range : option (Z * Z)) :
  ((∃ s, date = Some s ∧ s ≠ "" ∧ Calendar.strptime s = None)
   ∨ (∃ a b, time_range = Some (a, b) ∧ ¬ (0 ≤ a ≤ 23 ∧ 0 ≤ b ≤ 23 ∧ a ≤ b)) →
   let r := Requester.export_previous_day_recordings cfg default_day
              config_cameras env times cameras date time_range in
   Requester.exported_files r = []
   ∧ Requester.triggers r = []
   ∧ Requester.export_start_times r = times)
  ∧ Requester.export_previous_day_recordings cfg default_day
      config_cameras env times cameras (Some "") time_range
    = Requester.export_previous_day_recordings cfg default_day
        config_cameras env times cameras None time_range
  ∧ (∀ start_hour end_hour,
       time_range = Some (start_hour, end_hour) →
       0 ≤ start_hour ∧ start_hour ≤ end_hour ∧ end_hour ≤ 23 →
       Requester.resolve_window cfg default_day (Some "") time_range
       = Requester.Window
           (localized_timestamp (CHINA_TZ cfg) default_day start_hour 0 0)
           (localized_timestamp (CHINA_TZ cfg) default_day end_hour 59 59))
  ∧ (time_range = None →
     Requester.resolve_window cfg default_day (Some "") time_range
     = Requester.Window
         (localized_timestamp (CHINA_TZ cfg) default_day 0 0 0)
         (localized_timestamp (CHINA_TZ cfg) default_day 23 59 59)).
Proof.
  split_and!.
  - intros Hbad r. subst r. unfold Requester.export_previous_day_recordings.
    destruct Hbad as [(s & -> & Hne & Hs) | (a & b & -> & Hbad)].
    + by rewrite resolve_window_bad_date.
    + pose proof (resolve_window_bad_hours cfg default_day date a b Hbad) as Hw.
      destruct (Requester.resolve_window cfg default_day date (Some (a, b))); [|done..].
      by destruct (Hw start_timestamp end_timestamp).
  - reflexivity.
  - intros start_hour end_hour -> Hh. unfold Requester.resolve_window. cbn [truthy].
    rewrite bool_decide_eq_true_2 by done.
    replace (Requester.hour_range_ok start_hour end_hour) with true; [done|].
    symmetry. apply hour_range_ok_spec. lia.
  - by intros ->.
Qed.

Lemma export_rejects_malformed_input_witness :
  let r := Requester.export_previous_day_recordings Sample.cfg Sample.day
             None Sample.all_accepted ∅ (Some [Sample.cam]) (Some "2024-13-40") None in
  Requester.exported_files r = [] ∧ Requester.triggers r = []
  ∧ Requester.export_start_times r = ∅.
Proof.
  destruct (export_rejects_malformed_input Sample.cfg Sample.day None
              Sample.all_accepted ∅ (Some [Sample.cam]) (Some "2024-13-40") None)
    as [H _].
  apply H.
  left. exists "2024-13-40". split; [reflexivity|]. split; [discriminate|reflexivity].
Defined.

(** C4 as stated fails for the empty date string: it is not a date, yet
    [if date:] takes it for an absent one, the default day is exported and
    the request goes out. *)
Lemma export_empty_date_string_is_exported :
  Calendar.strptime "" = None
  ∧ let r := Requester.export_previous_day_recordings Sample.cfg Sample.day
               None Sample.all_accepted ∅ (Some [Sample.cam]) (Some "") None in
    Requester.exported_files r
      = [ {| Requester.item_camera := Sample.cam; Requester.item_date := 1704038400 |} ]
    ∧ Requester.triggers r
      = [ {| Requester.trig_camera := Sample.cam;
             Requester.trig_start := 1704038400;
             Requester.trig_end := 1704124799 |} ].
Proof. split; [reflexivity|]. vm_compute. split; reflexivity. Qed.




(** C6. When the window resolves, [export_previous_day_recordings] returns
    one item per accepted request, in order: the cameras it reached whose
    POST came back with 200 or 201 (each with the start timestamp), and
    [export_start_times] holds for each of them the clock of an accepted
    request. Which cameras are attempted depends on the exit flag only,
    never on a response: without an exit request every camera of the list
    is attempted, whatever the earlier ones answered. *)
Theorem export_returns_accepted_cameras (cfg : Config) (default_day : Calendar.date)
    (config_cameras : option (list string)) (env : nat → Requester.attempt)
    (times : gmap string Z) (cameras : option (list string))
    (date : option string) (time_range : option (Z * Z)) (s e : Z) :
  Requester.resolve_window cfg default_day date time_range = Requester.Window s e →
  let cams := default (Requester.get_cameras config_cameras) cameras in
  let r := Requester.export_previous_day_recordings cfg default_day
             config_cameras env times cameras date time_range in
  Requester.exported_files r
    = map (λ c, {| Requester.item_camera := c; Requester.item_date := s |})
          (Requester.accepted_cameras env 0 cams)
  ∧ Requester.triggers r
    = map (λ c, {| Requester.trig_camera := c;
                   Requester.trig_start := s; Requester.trig_end := e |})
          (Requester.attempted (λ k, Requester.exit_flag (env k)) 0 cams)
  ∧ ((∀ i, Requester.exit_flag (env i) = false) →
     map Requester.trig_camera (Requester.triggers r) = cams)
  ∧ (∀ c, c ∈ Requester.accepted_cameras env 0 cams
          ↔ ∃ k, cams !! k = Some c
                 ∧ (∀ j, (j ≤ k)%nat → Requester.exit_flag (env j) = false)
                 ∧ Requester.accepted (Requester.post_outcome (env k)) = true)
  ∧ (∀ c, c ∈ Requester.accepted_cameras env 0 cams →
          ∃ k, cams !! k = Some c
               ∧ Requester.accepted (Requester.post_outcome (env k)) = true
               ∧ Requester.export_start_times r !! c
                 = Some (Requester.accept_clock (env k))).
Proof.
  intros Hw cams r. subst r. unfold Requester.export_previous_day_recordings.
  rewrite Hw.
  replace (match cameras with Some cs => cs | None => Requester.get_cameras config_cameras end)
    with cams by (subst cams; by destruct cameras).
  destruct (trigger_loop_lists env s e cams 0%nat times) as [Hex Htr].
  split_and!.
  - exact Hex.
  - exact Htr.
  - intros Hno. rewrite Htr, map_map. simpl. rewrite map_id.
    by apply attempted_all.
  - intros c. apply (accepted_cameras_spec env cams c 0%nat).
  - intros c Hc.
    destruct (trigger_loop_times env s e cams c 0%nat times) as [_ H].
    exact (H Hc).
Qed.

Lemma export_returns_accepted_cameras_witness :
  let r := Requester.export_previous_day_recordings Sample.cfg Sample.day
             None Sample.some_fail ∅ (Some ["front"; "yard"; "gate"; "door"])
             (Some "2024-01-01") None in
  map Requester.item_camera (Requester.exported_files r) = ["front"; "door"]
  ∧ map Requester.trig_camera (Requester.triggers r) = ["front"; "yard"; "gate"; "door"].
Proof.
  destruct (export_returns_accepted_cameras Sample.cfg Sample.day None Sample.some_fail
              ∅ (Some ["front"; "yard"; "gate"; "door"]) (Some "2024-01-01") None
              1704038400 1704124799)
    as (H1 & H2 & _).
  - reflexivity.
  - intros r. subst r. split.
    + rewrite H1. reflexivity.
    + rewrite H2. reflexivity.
Defined.

(* ===================================================================== *)
(** * One pass over the pending cameras *)
(* ===================================================================== *)

Section TrackerStep.

Import Tracker.

Context (cfg : Config) (target : string) (exports : list ExportRecord)
        (disk : gmap string Z).

Implicit Types (P : gset string) (S : gmap string Z) (c : string).







(** [check_camera] with its three branches spelled out as conditions. *)
Lemma check_camera_unfold P S c :
  check_camera cfg target exports disk (P, S) c
  = let ces := filter (matches c target) exports in
    let ips := filter in_progress ces in
    if bool_decide (ips = []) && negb (bool_decide (ces = [])) then
      if (all_files_stable cfg disk S ces).1
      then (P ∖ {[c]}, purge cfg (all_files_stable cfg disk S ces).2 ces)
      else (P, (all_files_stable cfg disk S ces).2)
    else if bool_decide (ces = []) then (P, S)
    else (P, record_progress cfg disk S ips).
Proof.
  unfold check_camera. cbv zeta.
  generalize (filter (matches c target) exports). intros ces.
  destruct (filter in_progress ces) as [|i0 ips]; destruct ces as [|e0 ces]; try done.
  rewrite bool_decide_eq_true_2 by done.
  rewrite (bool_decide_eq_false_2 (e0 :: ces = [])) by done.
  cbn [andb negb].
  by destruct (all_files_stable cfg disk S (e0 :: ces)) as [[] S'].
Qed.

(** Examining a camera removes at most that camera. *)
Lemma check_camera_pending P S c :
  (check_camera cfg target exports disk (P, S) c).1 = P
  ∨ (check_camera cfg target exports disk (P, S) c).1 = P ∖ {[c]}.
Proof.
  rewrite check_camera_unfold. cbv zeta.
  destruct (_ && _); [destruct (all_files_stable _ _ _ _).1 | destruct (bool_decide _)];
    cbn [fst]; auto.
Qed.





(** The pending set only shrinks. *)
Lemma foldl_check_camera_subset (l : list string) :
  ∀ P S, (foldl (check_camera cfg target exports disk) (P, S) l).1 ⊆ P.
Proof.
  induction l as [|c0 l IH]; intros P S; cbn [foldl]; [done|].
  destruct (check_camera cfg target exports disk (P, S) c0) as [P1 S1] eqn:Hstep.
  etrans; [apply IH|].
  pose proof (check_camera_pending P S c0) as Hcases. rewrite Hstep in Hcases.
  cbn [fst] in Hcases. destruct Hcases as [HP | HP]; rewrite HP.
  - done.
  - apply subseteq_difference_l. done.
Qed.

(** The order of a pass lists every pending camera once. *)
Lemma pass_order_NoDup (order : list string) P : NoDup (pass_order order P).
Proof.
  unfold pass_order. apply NoDup_app. split_and!.
  - apply NoDup_filter, NoDup_remove_dups.
  - intros c [_ Hc]%list_elem_of_filter [Hnot _]%list_elem_of_filter.
    apply Hnot. by rewrite elem_of_remove_dups in Hc.
  - apply NoDup_filter, NoDup_elements.
Qed.

Lemma elem_of_pass_order (order : list string) P c : c ∈ pass_order order P ↔ c ∈ P.
Proof.
  unfold pass_order.
  rewrite elem_of_app, !list_elem_of_filter, elem_of_remove_dups, elem_of_elements.
  destruct (decide (c ∈ order)); tauto.
Qed.

Lemma pass_order_permutation (order : list string) P :
  pass_order order P ≡ₚ elements P.
Proof.
  apply NoDup_Permutation; [apply pass_order_NoDup | apply NoDup_elements |].
  intros c. by rewrite elem_of_pass_order, elem_of_elements.
Qed.

Lemma pass_order_empty (order : list string) : pass_order order ∅ = [].
Proof.
  apply Permutation_nil_r. rewrite pass_order_permutation. by rewrite elements_empty.
Qed.

Lemma pass_order_singleton (order : list string) c : pass_order order {[ c ]} = [c].
Proof.
  apply Permutation_singleton_r. rewrite pass_order_permutation.
  by rewrite elements_singleton.
Qed.

Lemma remove_dups_NoDup (l : list string) : NoDup l → remove_dups l = l.
Proof.
  induction 1 as [|c l Hc Hnd IH]; [done|]. cbn [remove_dups].
  destruct (decide_rel elem_of c l); [done|]. by rewrite IH.
Qed.

(** Every arrangement of the pending set is the order of some pass. *)
Lemma pass_order_any (l : list string) P :
  NoDup l → (∀ c, c ∈ l ↔ c ∈ P) → pass_order l P = l.
Proof.
  intros Hnd Hl. unfold pass_order. rewrite (remove_dups_NoDup l Hnd).
  replace (filter (λ c, c ∈ P) l) with l.
  - replace (filter (λ c, c ∉ l) (elements P)) with (@nil string);
      [by rewrite app_nil_r|].
    destruct (filter _ _) as [|c rest] eqn:Hf; [done|].
    assert (Hc : c ∈ filter (λ c, c ∉ l) (elements P)) by (rewrite Hf; by left).
    apply list_elem_of_filter in Hc as [Hnot Hc]. destruct Hnot.
    apply Hl. by apply elem_of_elements in Hc.
  - clear Hnd. assert (Hall : ∀ c, c ∈ l → c ∈ P) by (intros c; apply Hl).
    clear Hl. induction l as [|c l IH]; [done|].
    rewrite filter_cons_True by (apply Hall; by left).
    f_equal. apply IH. intros c' Hc'. apply Hall. by right.
Qed.






End TrackerStep.




(* ===================================================================== *)
(** * The polling loop *)
(* ===================================================================== *)

Section TrackerLoop.

Import Tracker.

Context (cfg : Config) (target : string) (start_time max_wait_time : Z).

Implicit Types (P : gset string) (S : gmap string Z) (ticks : list tick).

Lemma is_empty_true P : is_empty P = true ↔ P = ∅.
Proof. unfold is_empty. apply bool_decide_eq_true. Qed.

Lemma is_empty_false P : is_empty P = false ↔ P ≠ ∅.
Proof. unfold is_empty. apply bool_decide_eq_false. Qed.

Lemma check_cameras_subset exports disk order P S :
  (check_cameras cfg target exports disk order (P, S)).1 ⊆ P.
Proof. apply foldl_check_camera_subset. Qed.

Lemma poll_subset t P S : (poll cfg target (P, S) t).1 ⊆ P.
Proof.
  unfold poll. destruct (exports_response t); [apply check_cameras_subset | done].
Qed.

Lemma polls_cons t ticks (st : gset string * gmap string Z) :
  polls cfg target (t :: ticks) st = polls cfg target ticks (poll cfg target st t).
Proof. reflexivity. Qed.

Lemma polls_app ticks1 ticks2 (st : gset string * gmap string Z) :
  polls cfg target (ticks1 ++ ticks2) st
  = polls cfg target ticks2 (polls cfg target ticks1 st).
Proof. apply foldl_app. Qed.

(** The pending set only shrinks from poll to poll. *)
Lemma polls_subset ticks : ∀ P S, (polls cfg target ticks (P, S)).1 ⊆ P.
Proof.
  induction ticks as [|t ticks IH]; intros P S; [done|].
  rewrite polls_cons. pose proof (poll_subset t P S) as Hsub.
  destruct (poll cfg target (P, S) t) as [P1 S1]. etrans; [apply IH | exact Hsub].
Qed.

Lemma polls_empty_stays ticks (st : gset string * gmap string Z) :
  st.1 = ∅ → (polls cfg target ticks st).1 = ∅.
Proof.
  destruct st as [P S]. simpl. intros ->.
  pose proof (polls_subset ticks ∅ S) as Hsub.
  apply set_eq. intros c. split; [by intros ?%Hsub | by intros ?%not_elem_of_empty].
Qed.

(** What a finished run of the loop says about itself. *)
Lemma poll_loop_spec ticks :
  ∀ P S (queries naps : nat) (r : run),
    poll_loop cfg target start_time max_wait_time ticks P S queries naps = Some r →
    ∃ k : nat,
      status_queries r = (queries + k)%nat
      ∧ (k ≤ List.length ticks)%nat
      ∧ Forall (λ t, within_deadline start_time max_wait_time t = true) (take k ticks)
      ∧ pending_at_exit r = (polls cfg target (take k ticks) (P, S)).1
      ∧ returned r = is_empty (pending_at_exit r)
      ∧ unresolved r ≡ₚ elements (pending_at_exit r)
      ∧ (returned r = false →
         ∃ t, ticks !! k = Some t
              ∧ within_deadline start_time max_wait_time t = false).
Proof.
  induction ticks as [|t later IH]; intros P S queries naps r Hrun; [done|].
  cbn [poll_loop] in Hrun.
  destruct (within_deadline start_time max_wait_time t) eqn:Hw;
    destruct (is_empty P) eqn:HP; cbn [andb negb] in Hrun.
  2: { (* the loop is entered *)
    destruct (exports_response t) as [exports|] eqn:Hresp.
    - destruct (check_cameras cfg target exports (disk t) (set_order t) (P, S)) as [P' S'] eqn:Hstep.
      assert (Hpoll : poll cfg target (P, S) t = (P', S'))
        by (unfold poll; by rewrite Hresp).
      destruct (is_empty P') eqn:HP'.
      + inversion Hrun; subst r; clear Hrun. exists 1%nat.
        replace (take 1 (t :: later)) with [t] by (by rewrite firstn_cons, take_0).
        rewrite polls_cons, Hpoll. cbn.
        apply is_empty_true in HP' as HP''.
        split_and!; try done; try lia.
        * by repeat constructor.
        * by rewrite HP'', elements_empty.
      + destruct (IH _ _ _ _ _ Hrun) as (k & Hq & Hk & Hall & Hpend & Hret & Hun & Hstop).
        exists (Datatypes.S k). rewrite firstn_cons, polls_cons, Hpoll.
        cbn [List.length].
        split_and!; try done; try lia. by constructor.
    - destruct (IH _ _ _ _ _ Hrun) as (k & Hq & Hk & Hall & Hpend & Hret & Hun & Hstop).
      assert (Hpoll : poll cfg target (P, S) t = (P, S))
        by (unfold poll; by rewrite Hresp).
      exists (Datatypes.S k). rewrite firstn_cons, polls_cons, Hpoll.
        cbn [List.length].
      split_and!; try done; try lia. by constructor. }
  all: inversion Hrun; subst r; clear Hrun; exists 0%nat; rewrite take_0; cbn;
    split_and!; try done; try lia; try (by rewrite HP);
    try apply pass_order_permutation.
  intros _. by exists t.
Qed.

(** Enough ticks: the loop returns once the environment shows a tick past
    the deadline (or with the exit flag up). *)
Lemma poll_loop_returns ticks :
  Exists (λ t, within_deadline start_time max_wait_time t = false) ticks →
  ∀ P S (queries naps : nat),
    is_Some (poll_loop cfg target start_time max_wait_time ticks P S queries naps).
Proof.
  induction 1 as [t later Hw | t later _ IH]; intros P S queries naps;
    cbn [poll_loop].
  - rewrite Hw. by eexists.
  - destruct (_ && _); [|by eexists].
    destruct (exports_response t) as [exports|]; [|apply IH].
    destruct (check_cameras cfg target exports (disk t) (set_order t) (P, S)) as [P' S'].
    destruct (is_empty P'); [by eexists | apply IH].
Qed.

(** The loop says yes exactly when the pending set empties at a poll that
    no exhausted deadline precedes. *)
Lemma poll_loop_returned ticks P S (queries naps : nat) (r : run) :
  poll_loop cfg target start_time max_wait_time ticks P S queries naps = Some r →
  (returned r = true
   ↔ ∃ k : nat, Forall (λ t, within_deadline start_time max_wait_time t = true) (take k ticks)
                ∧ (polls cfg target (take k ticks) (P, S)).1 = ∅).
Proof.
  intros Hrun.
  destruct (poll_loop_spec _ _ _ _ _ _ Hrun)
    as (k & Hq & Hk & Hall & Hpend & Hret & Hun & Hstop).
  split.
  - intros Htrue. exists k. split; [done|].
    rewrite Htrue in Hret. symmetry in Hret. apply is_empty_true in Hret.
    by rewrite <- Hpend.
  - intros (k' & Hall' & Hempty).
    destruct (returned r) eqn:Hr; [done|]. exfalso.
    destruct (Hstop eq_refl) as (t & Ht & Hw).
    symmetry in Hret. apply is_empty_false in Hret. apply Hret.
    destruct (decide (k' ≤ k)%nat) as [Hle|Hgt].
    + rewrite Hpend.
      rewrite <- (take_drop k' (take k ticks)), take_take, Nat.min_l by lia.
      rewrite polls_app. by apply polls_empty_stays.
    + assert (Hin : take k' ticks !! k = Some t)
        by (rewrite lookup_take_lt by lia; done).
      pose proof (Forall_lookup_1 _ _ _ _ Hall' Hin) as Hwt. cbn in Hwt.
      congruence.
Qed.

End TrackerLoop.

(** The date resolves when it is absent, empty, or a [%Y-%m-%d] date. *)
Lemma target_date_str_resolves (default_day : Calendar.date) (date : option string) :
  is_Some (target_date_str default_day date)
  ↔ date = None ∨ date = Some ""
    ∨ ∃ s d, date = Some s ∧ Calendar.strptime s = Some d.
Proof.
  unfold target_date_str, truthy.
  destruct date as [s|]; [|split; [by left | by eexists]].
  destruct (decide (s = "")) as [->|Hne].
  - split; [by right; left | by eexists].
  - rewrite bool_decide_eq_false_2 by done. cbn [negb].
    destruct (Calendar.strptime s) as [d|] eqn:Hs.
    + split; [right; right; by exists s, d | by eexists].
    + split; [by intros [? [=]] |].
      intros [[=] | [[= ->] | (s' & d & [= <-] & Hs')]]; [done | congruence].
Qed.

(** C3, as the code has it. [check_export_status] returns true exactly
    when the date resolves (it is absent, empty, or a [%Y-%m-%d] date) and
    the pending set built from the camera list is empty after some number
    of polls, each entered with [max_wait_time] not yet elapsed and no exit
    requested. Otherwise it returns false, and the warning names exactly
    the cameras still in the pending set; when the date string does not
    parse it returns false at once, the pending set is never built and no
    camera is named. The function does return: a trace that reaches a tick
    past the deadline always yields a result. *)
Theorem check_export_status_verdict (cfg : Config) (default_day : Calendar.date)
    (start_time : Z) (ticks : list Tracker.tick) (cameras : list string)
    (max_wait_time : Z) (date : option string) :
  (∀ r,
     Tracker.check_export_status cfg default_day start_time ticks cameras
       max_wait_time date = Some r →
     (Tracker.returned r = true
      ↔ ∃ target (k : nat),
          target_date_str default_day date = Some target
          ∧ Forall (λ t, Tracker.within_deadline start_time max_wait_time t = true)
                   (take k ticks)
          ∧ (Tracker.polls cfg target (take k ticks) (list_to_set cameras, ∅)).1 = ∅)
     ∧ (Tracker.returned r = false →
        NoDup (Tracker.unresolved r)
        ∧ ∀ c, c ∈ Tracker.unresolved r ↔ c ∈ Tracker.pending_at_exit r)
     ∧ (∀ target,
          target_date_str default_day date = Some target →
          Tracker.pending_at_exit r
          = (Tracker.polls cfg target (take (Tracker.status_queries r) ticks)
               (list_to_set cameras, ∅)).1)
     ∧ (target_date_str default_day date = None →
        Tracker.returned r = false ∧ Tracker.unresolved r = []
        ∧ Tracker.pending_at_exit r = ∅ ∧ Tracker.status_queries r = 0%nat))
  ∧ (Exists (λ t, Tracker.within_deadline start_time max_wait_time t = false) ticks →
     is_Some (Tracker.check_export_status cfg default_day start_time ticks cameras
                max_wait_time date))
  ∧ (is_Some (target_date_str default_day date)
     ↔ date = None ∨ date = Some ""
       ∨ ∃ s d, date = Some s ∧ Calendar.strptime s = Some d).
Proof.
  split_and!.
  - unfold Tracker.check_export_status.
    destruct (target_date_str default_day date) as [target|].
    + intros r Hrun. split_and!.
      * rewrite (poll_loop_returned _ _ _ _ _ _ _ _ _ _ Hrun). split.
        -- intros (k & ? & ?). by exists target, k.
        -- intros (target' & k & [= <-] & ? & ?). by exists k.
      * intros _.
        destruct (poll_loop_spec _ _ _ _ _ _ _ _ _ _ Hrun)
          as (k & _ & _ & _ & _ & _ & Hun & _).
        split.
        -- rewrite Hun. apply NoDup_elements.
        -- intros c. by rewrite Hun, elem_of_elements.
      * intros target' [= <-].
        destruct (poll_loop_spec _ _ _ _ _ _ _ _ _ _ Hrun)
          as (k & Hq & _ & _ & Hpend & _).
        by rewrite Hq.
      * done.
    + intros r [= <-]. cbn. split_and!.
      * split; [done | by intros (? & ? & ? & _)].
      * intros _. split; [apply NoDup_nil_2|].
        intros c. split; [by intros ?%elem_of_nil | by intros ?%not_elem_of_empty].
      * done.
      * done.
  - unfold Tracker.check_export_status.
    destruct (target_date_str default_day date) as [target|].
    + intros Hex. by apply poll_loop_returns.
    + intros _. by eexists.
  - apply target_date_str_resolves.
Qed.

Lemma check_export_status_verdict_witness :
  let r := {| Tracker.returned := false;
              Tracker.pending_at_exit := {[ Sample.cam ]};
              Tracker.unresolved := [Sample.cam];
              Tracker.status_queries := 1;
              Tracker.sleeps := 1;
              Tracker.file_sizes_at_exit := {[ Sample.on_disk := 100 ]} |} in
  Tracker.check_export_status Sample.cfg Sample.day 0
    [Sample.seen 0 true (Some 100); Sample.seen 7200 true (Some 100)]
    [Sample.cam] 7200 (Some "2024-01-01") = Some r
  ∧ ∀ c, c ∈ Tracker.unresolved r ↔ c ∈ Tracker.pending_at_exit r.
Proof.
  intros r.
  assert (Hrun : Tracker.check_export_status Sample.cfg Sample.day 0
            [Sample.seen 0 true (Some 100); Sample.seen 7200 true (Some 100)]
            [Sample.cam] 7200 (Some "2024-01-01") = Some r)
    by (vm_compute; reflexivity).
  split; [exact Hrun|].
  destruct (check_export_status_verdict Sample.cfg Sample.day 0
              [Sample.seen 0 true (Some 100); Sample.seen 7200 true (Some 100)]
              [Sample.cam] 7200 (Some "2024-01-01")) as [H _].
  destruct (H r Hrun) as (_ & Hun & _). apply Hun. reflexivity.
Defined.

(** C3 as stated fails when the date string does not parse: with no camera
    to wait for the pending set would be empty from the start, and with a
    camera whose export is done and stable one poll would empty it, yet
    the function returns false, asks nothing and names no camera. *)
Lemma bad_date_returns_false_without_report :
  (list_to_set [] : gset string) = ∅
  ∧ Tracker.check_export_status Sample.cfg Sample.day 0
      [Sample.seen 0 false (Some 100)] [] 7200 (Some "2024-13-40")
    = Some {| Tracker.returned := false;
              Tracker.pending_at_exit := ∅;
              Tracker.unresolved := [];
              Tracker.status_queries := 0;
              Tracker.sleeps := 0;
              Tracker.file_sizes_at_exit := ∅ |}
  ∧ Tracker.check_export_status Sample.cfg Sample.day 0
      [Sample.seen 0 false (Some 100)] [Sample.cam] 7200 (Some "2024-13-40")
    = Some {| Tracker.returned := false;
              Tracker.pending_at_exit := ∅;
              Tracker.unresolved := [];
              Tracker.status_queries := 0;
              Tracker.sleeps := 0;
              Tracker.file_sizes_at_exit := ∅ |}
  ∧ Tracker.returned
      <$> Tracker.check_export_status Sample.cfg Sample.day 0
            [Sample.seen 0 false (Some 100)] [Sample.cam] 7200 (Some "2024-01-01")
    = Some true.
Proof. vm_compute. repeat split. Qed.

(** C10, as the code has it. With an empty camera list
    [check_export_status] asks the platform nothing and never sleeps; it
    returns true when the date is absent, empty, or a [%Y-%m-%d] date, and
    false when the date string does not parse. *)
Theorem empty_camera_list_returns_at_once (cfg : Config) (default_day : Calendar.date)
    (start_time : Z) (t : Tracker.tick) (later : list Tracker.tick)
    (max_wait_time : Z) (date : option string) :
  Tracker.check_export_status cfg default_day start_time (t :: later) []
    max_wait_time date
  = Some {| Tracker.returned := bool_decide (is_Some (target_date_str default_day date));
            Tracker.pending_at_exit := ∅;
            Tracker.unresolved := [];
            Tracker.status_queries := 0;
            Tracker.sleeps := 0;
            Tracker.file_sizes_at_exit := ∅ |}
  ∧ (is_Some (target_date_str default_day date)
     ↔ date = None ∨ date = Some ""
       ∨ ∃ s d, date = Some s ∧ Calendar.strptime s = Some d).
Proof.
  split; [|apply target_date_str_resolves].
  unfold Tracker.check_export_status.
  destruct (target_date_str default_day date) as [target|]; [|done].
  cbn [Tracker.poll_loop]. rewrite list_to_set_nil.
  replace (Tracker.is_empty ∅) with true by (symmetry; by apply is_empty_true).
  rewrite andb_false_r. unfold Tracker.after_loop.
  replace (Tracker.is_empty ∅) with true by (symmetry; by apply is_empty_true).
  rewrite pass_order_empty. reflexivity.
Qed.

Lemma empty_camera_list_returns_at_once_witness :
  Tracker.check_export_status Sample.cfg Sample.day 0
    [Sample.seen 0 false (Some 100)] [] 7200 (Some "２０２４-01-01")
  = Some {| Tracker.returned := true;
            Tracker.pending_at_exit := ∅;
            Tracker.unresolved := [];
            Tracker.status_queries := 0;
            Tracker.sleeps := 0;
            Tracker.file_sizes_at_exit := ∅ |}.
Proof.
  destruct (empty_camera_list_returns_at_once Sample.cfg Sample.day 0
              (Sample.seen 0 false (Some 100)) [] 7200 (Some "２０２４-01-01"))
    as [Hrun _].
  exact Hrun.
Defined.

(** C10 as stated fails for a date string that does not parse: the empty
    camera list still gets the answer false. *)
Lemma empty_camera_list_with_bad_date :
  Tracker.returned
    <$> Tracker.check_export_status Sample.cfg Sample.day 0
          [Sample.seen 0 false None] [] 7200 (Some "2024-13-40")
  = Some false.
Proof. reflexivity. Qed.

(* ===================================================================== *)
(** * One camera, one record, one file *)
(* ===================================================================== *)

Section SingleRecord.

Import Tracker Scenario.

Context (cfg : Config) (target : string) (start_time max_wait_time : Z)
        (cam : string) (e : ExportRecord).
Context (Hcam : rec_camera e = Some cam)
        (Hname : Path.contains target (default "" (rec_name e)) = true)
        (Hpath : watched_path cfg e ≠ "").

Lemma reading_size (size : Z) :
  path_size {[ watched_path cfg e := size ]} (watched_path cfg e) = Some size.
Proof.
  unfold path_size. rewrite bool_decide_eq_false_2 by exact Hpath.
  apply lookup_singleton_eq.
Qed.

Lemma matches_with_progress (running : bool) :
  matches cam target (with_progress e running).
Proof. by split. Qed.

(** While the record is running the camera stays and the ledger takes the
    size of the file. *)
Lemma check_cameras_running (size : Z) (order : list string) (S : gmap string Z) :
  check_cameras cfg target [with_progress e true] {[ watched_path cfg e := size ]}
    order ({[ cam ]}, S)
  = ({[ cam ]}, <[ watched_path cfg e := size ]> S).
Proof.
  unfold check_cameras. cbn [fst]. rewrite pass_order_singleton. cbn [foldl].
  rewrite check_camera_unfold. cbv zeta.
  rewrite (filter_singleton_True _ _ [] (matches_with_progress true)).
  rewrite (filter_singleton_True in_progress _ []) by done.
  rewrite (bool_decide_eq_false_2 (_ = [])) by done. cbn [andb].
  unfold record_progress. cbn [foldl].
  change (watched_path cfg (with_progress e true)) with (watched_path cfg e).
  by rewrite reading_size.
Qed.

Lemma all_files_stable_single (size : Z) (S : gmap string Z) :
  all_files_stable cfg {[ watched_path cfg e := size ]} S [with_progress e false]
  = (bool_decide (size = default size (S !! watched_path cfg e)),
     <[ watched_path cfg e := size ]> S).
Proof.
  cbn [all_files_stable].
  change (watched_path cfg (with_progress e false)) with (watched_path cfg e).
  rewrite reading_size.
  case_bool_decide as Heq.
  - apply Z.eqb_eq in Heq. by rewrite Heq.
  - apply Z.eqb_neq in Heq. by rewrite Heq.
Qed.

Lemma check_cameras_done (size : Z) (order : list string) (S : gmap string Z) :
  check_cameras cfg target [with_progress e false] {[ watched_path cfg e := size ]}
    order ({[ cam ]}, S)
  = if bool_decide (size = default size (S !! watched_path cfg e))
    then (∅, purge cfg (<[ watched_path cfg e := size ]> S) [with_progress e false])
    else ({[ cam ]}, <[ watched_path cfg e := size ]> S).
Proof.
  unfold check_cameras. cbn [fst]. rewrite pass_order_singleton. cbn [foldl].
  rewrite check_camera_unfold. cbv zeta.
  rewrite (filter_singleton_True _ _ [] (matches_with_progress false)).
  rewrite (filter_singleton_False in_progress _ []) by (unfold in_progress; cbn; done).
  rewrite bool_decide_eq_true_2 by done.
  rewrite (bool_decide_eq_false_2 (_ = [])) by done. cbn [andb negb].
  rewrite all_files_stable_single. cbn [fst snd].
  case_bool_decide; [|done]. by rewrite difference_diag_L.
Qed.

Lemma reading_within (running : bool) (cs : Z * Z) :
  cs.1 - start_time < max_wait_time →
  within_deadline start_time max_wait_time (reading cfg e running cs) = true.
Proof.
  intros H. unfold within_deadline. cbn. rewrite andb_true_r. by apply Z.ltb_lt.
Qed.

Lemma singleton_not_empty : is_empty ({[ cam ]} : gset string) = false.
Proof. apply is_empty_false. apply non_empty_singleton_L. Qed.

(** With a previous reading [prev] in the ledger, the loop goes on while
    the readings keep changing and returns true at the first reading
    that repeats the one before it. *)
Lemma poll_loop_until_repeat (moving : list (Z * Z)) :
  ∀ (prev : Z) (again : Z) (rest : list (Z * Z)) (queries naps : nat),
    keeps_changing prev moving →
    Forall (λ cs, cs.1 - start_time < max_wait_time) moving →
    again - start_time < max_wait_time →
    ∃ r,
      poll_loop cfg target start_time max_wait_time
        (map (reading cfg e false) (moving ++ (again, last_size prev moving) :: rest))
        {[ cam ]} {[ watched_path cfg e := prev ]} queries naps = Some r
      ∧ returned r = true
      ∧ status_queries r = (queries + List.length moving + 1)%nat
      ∧ sleeps r = (naps + List.length moving)%nat.
Proof.
  induction moving as [|cs moving IH];
    intros prev again rest queries naps Hch Hall Hagain.
  - cbn [app map poll_loop last_size List.length].
    rewrite reading_within by done. rewrite singleton_not_empty. cbn [andb negb].
    cbn [exports_response disk reading snd].
    rewrite check_cameras_done, lookup_singleton_eq. cbn [default].
    rewrite bool_decide_eq_true_2 by done.
    replace (is_empty ∅) with true by (symmetry; by apply is_empty_true).
    eexists. split; [reflexivity|]. cbn. split_and!; [done | lia | lia].
  - destruct Hch as [Hne Hch]. apply Forall_cons in Hall as [Hcs Hall].
    cbn [app map poll_loop last_size List.length].
    rewrite reading_within by done. rewrite singleton_not_empty. cbn [andb negb].
    cbn [exports_response disk reading].
    rewrite check_cameras_done, lookup_singleton_eq. cbn [default].
    rewrite bool_decide_eq_false_2 by done.
    rewrite singleton_not_empty, insert_singleton_eq.
    destruct (IH cs.2 again rest (Datatypes.S queries) (Datatypes.S naps) Hch Hall Hagain)
      as (r & Hrun & Hret & Hq & Hn).
    exists r. split_and!; [done | done | lia | lia].
Qed.

End SingleRecord.

(** X24. One run of the loop, for one camera with one matched record whose
    file is there at every poll: the first poll finds the record in
    progress, all later polls find it done. As long as every reading
    differs from the one before it (100, then 150) the camera stays
    pending and the loop sleeps; the first reading that repeats its
    predecessor (100, then 100) ends the run with true, after exactly
    [2 + n] status queries when [n] changing readings came in between. *)
Theorem confirmed_at_first_repeated_reading (cfg : Config)
    (default_day : Calendar.date) (start_time max_wait_time : Z)
    (cam : string) (e : ExportRecord) (date : option string) (target : string)
    (first : Z * Z) (moving : list (Z * Z)) (again : Z) (rest : list (Z * Z)) :
  target_date_str default_day date = Some target →
  rec_camera e = Some cam →
  Path.contains target (default "" (rec_name e)) = true →
  Tracker.watched_path cfg e ≠ "" →
  Forall (λ cs, cs.1 - start_time < max_wait_time) (first :: moving) →
  again - start_time < max_wait_time →
  Scenario.keeps_changing first.2 moving →
  ∃ r,
    Tracker.check_export_status cfg default_day start_time
      (Scenario.reading cfg e true first
       :: map (Scenario.reading cfg e false)
              (moving ++ (again, Scenario.last_size first.2 moving) :: rest))
      [cam] max_wait_time date = Some r
    ∧ Tracker.returned r = true
    ∧ Tracker.status_queries r = (2 + List.length moving)%nat
    ∧ Tracker.sleeps r = (1 + List.length moving)%nat.
Proof.
  intros Hdate Hcam Hname Hpath Hall Hagain Hch.
  apply Forall_cons in Hall as [Hfirst Hall].
  unfold Tracker.check_export_status. rewrite Hdate.
  cbn [Tracker.poll_loop].
  rewrite (reading_within cfg start_time max_wait_time e true first Hfirst).
  replace (list_to_set [cam] : gset string) with ({[ cam ]} : gset string)
    by (cbn; by rewrite union_empty_r_L).
  rewrite singleton_not_empty. cbn [andb negb].
  cbn [Tracker.exports_response Tracker.disk Scenario.reading].
  rewrite (check_cameras_running cfg target cam e Hcam Hname Hpath).
  rewrite singleton_not_empty, insert_empty.
  destruct (poll_loop_until_repeat cfg target start_time max_wait_time cam e
              Hcam Hname Hpath moving first.2 again rest 1%nat 1%nat Hch Hall Hagain)
    as (r & Hrun & Hret & Hq & Hn).
  exists r. split_and!; [done | done | lia | lia].
Qed.

Lemma confirmed_at_first_repeated_reading_witness :
  ∃ r,
    Tracker.check_export_status Sample.cfg Sample.day 0
      [Sample.seen 0 true (Some 100); Sample.seen 30 false (Some 150);
       Sample.seen 60 false (Some 150)]
      [Sample.cam] 7200 None = Some r
    ∧ Tracker.returned r = true
    ∧ Tracker.status_queries r = 3%nat
    ∧ Tracker.sleeps r = 2%nat.
Proof.
  apply (confirmed_at_first_repeated_reading Sample.cfg Sample.day 0 7200
           Sample.cam (Sample.record true) None "2024-01-01"
           (0, 100) [(30, 150)] 60 []).
  - reflexivity.
  - reflexivity.
  - reflexivity.
  - discriminate.
  - repeat constructor; cbn; lia.
  - lia.
  - cbn. split; [lia | exact I].
Defined.

(** The run of the specification: in progress at 100, then done at 100. *)
Example two_equal_readings_confirm :
  (λ r, (Tracker.returned r, Tracker.status_queries r, Tracker.sleeps r))
    <$> Tracker.check_export_status Sample.cfg Sample.day 0
          [Sample.seen 0 true (Some 100); Sample.seen 30 false (Some 100)]
          [Sample.cam] 7200 None
  = Some (true, 2%nat, 1%nat).
Proof. vm_compute. reflexivity. Qed.


(* ===================================================================== *)
(** * Relocation *)
(* ===================================================================== *)

Section RelocatorFacts.

Import Relocator.

Context (cfg : Config).

(** [moved_files] counts the moves that were carried out. *)
Lemma move_loop_count (env : nat → step) (target_exports : list ExportRecord) :
  ∀ i fs moved,
    (move_loop cfg env i target_exports fs moved).1.2
    = moved + moves (move_loop cfg env i target_exports fs moved).2.
Proof.
  induction target_exports as [|export rest IH]; intros i fs moved;
    cbn [move_loop]; [cbn; lia|].
  destruct (exit_flag (env i)); [cbn; lia|].
  destruct (_ || _); [apply IH|]. cbv zeta.
  destruct (shutil_move (env i) _ _ fs) as [[] fs1]; cbn [fst snd]; [|apply IH].
  specialize (IH (S i) fs1 (moved + 1)).
  destruct (move_loop cfg env (S i) rest fs1 (moved + 1)) as [[fs' moved'] evs].
  cbn [fst snd] in IH |- *. rewrite IH.
  case_bool_decide; cbn [app moves]; lia.
Qed.

(** A record whose file is not there is passed over: same files, same
    count, nothing done, and the loop goes on with the next record. *)
Lemma move_loop_skips_missing (env : nat → step) (i : nat)
    (export : ExportRecord) (rest : list ExportRecord)
    (fs : gmap string Z) (moved : Z) :
  exit_flag (env i) = false →
  path_exists (env i) fs (get_real_file_path (SOURCE_PATH cfg)
                            (default "" (rec_video_path export))) = false →
  move_loop cfg env i (export :: rest) fs moved
  = move_loop cfg env (S i) rest fs moved.
Proof.
  intros Hexit Hmissing. cbn [move_loop]. rewrite Hexit, Hmissing.
  by rewrite orb_true_r.
Qed.

End RelocatorFacts.

(** C9. [check_and_move_exported_files] moves a file only after
    [os.makedirs(DEST_PATH, exist_ok=True)]: a run with a move starts with
    that call and leaves the directory in place. [moved_files] is the
    number of moves carried out, and a target record whose resolved path
    does not exist on disk ([os.path.exists] is false) changes neither the
    files nor the count nor the list of actions: the loop goes on with the
    records after it. *)
Theorem relocation_creates_directory_and_skips_missing (cfg : Config)
    (default_day : Calendar.date) (exports_response : option (list ExportRecord))
    (makedirs_ok : bool) (env : nat → Relocator.step) (w : Relocator.world)
    (cameras : list string) (date : option string) :
  let r := Relocator.check_and_move_exported_files cfg default_day exports_response
             makedirs_ok env w cameras date in
  (∀ src dst, Relocator.Move src dst ∈ Relocator.events r →
     (∃ later, Relocator.events r = Relocator.MakeDirs (DEST_PATH cfg) :: later)
     ∧ DEST_PATH cfg ∈ Relocator.dirs (Relocator.world_after r))
  ∧ (∀ n, Relocator.moved_files r = Some n → n = Relocator.moves (Relocator.events r))
  ∧ (∀ i export rest fs moved,
       Relocator.exit_flag (env i) = false →
       Relocator.path_exists (env i) fs
         (get_real_file_path (SOURCE_PATH cfg)
            (default "" (rec_video_path export))) = false →
       Relocator.move_loop cfg env i (export :: rest) fs moved
       = Relocator.move_loop cfg env (S i) rest fs moved).
Proof.
  intros r. subst r. unfold Relocator.check_and_move_exported_files.
  split_and!.
  - intros src dst.
    destruct exports_response as [exports|]; [|by intros ?%elem_of_nil].
    destruct makedirs_ok; cbn [negb]; [|by intros ?%elem_of_nil].
    destruct (target_date_str default_day date) as [target|].
    + destruct (Relocator.move_loop _ _ _ _ _ _) as [[fs moved] evs].
      cbn. intros _. split; [by eexists | set_solver].
    + cbn. intros _. split; [by eexists | set_solver].
  - intros n.
    destruct exports_response as [exports|]; [|done].
    destruct makedirs_ok; cbn [negb]; [|done].
    destruct (target_date_str default_day date) as [target|]; [|done].
    pose proof (move_loop_count cfg env
                  (filter (Relocator.is_target cameras target) exports) 0%nat
                  (Relocator.files w) 0) as Hcount.
    cbn [Relocator.files]. 
    destruct (Relocator.move_loop _ _ _ _ _ _) as [[fs moved] evs].
    cbn [fst snd] in Hcount. cbn. intros [= <-]. lia.
  - apply move_loop_skips_missing.
Qed.

Lemma relocation_creates_directory_and_skips_missing_witness :
  let gone := {| rec_id := Some "c3d4"; rec_camera := Some Sample.cam;
                 rec_name := Some "front 2024-01-01 (old)";
                 rec_video_path := Some "/media/frigate/exports/lost.mp4";
                 rec_in_progress := Some false |} in
  let r := Relocator.check_and_move_exported_files Sample.cfg Sample.day
             (Some [gone; Sample.record false]) true Sample.smooth
             {| Relocator.files := {[ Sample.on_disk := 100 ]}; Relocator.dirs := ∅ |}
             [Sample.cam] None in
  Relocator.events r
    = [Relocator.MakeDirs "/backup/exports";
       Relocator.Move Sample.on_disk "/backup/exports/front_2024-01-01.mp4";
       Relocator.DeleteRecord "a1b2"]
  ∧ 1 = Relocator.moves (Relocator.events r)
  ∧ "/backup/exports" ∈ Relocator.dirs (Relocator.world_after r).
Proof.
  intros gone r.
  assert (Hev : Relocator.events r
                = [Relocator.MakeDirs "/backup/exports";
                   Relocator.Move Sample.on_disk "/backup/exports/front_2024-01-01.mp4";
                   Relocator.DeleteRecord "a1b2"]) by (vm_compute; reflexivity).
  destruct (relocation_creates_directory_and_skips_missing Sample.cfg Sample.day
              (Some [gone; Sample.record false]) true Sample.smooth
              {| Relocator.files := {[ Sample.on_disk := 100 ]}; Relocator.dirs := ∅ |}
              [Sample.cam] None) as (Hdir & Hcount & _).
  fold r in Hdir, Hcount.
  split_and!.
  - exact Hev.
  - apply (Hcount 1). vm_compute. reflexivity.
  - apply (Hdir Sample.on_disk "/backup/exports/front_2024-01-01.mp4").
    rewrite Hev. apply elem_of_cons. right. apply elem_of_cons. by left.
Defined.

(* ===================================================================== *)
(** * Retention *)
(* ===================================================================== *)

Section SweeperFacts.

Import Sweeper.

Context (cfg : Config) (system_offset : Z → Z).






End SweeperFacts.

(** C8 at the failing input. The machine runs on UTC, the configured zone
    is Asia/Shanghai, retention is 30 days. A file modified 29 days and 23
    hours ago is one hour younger than the cut-off, and
    [clean_old_exports] deletes it: [datetime.fromtimestamp] yields the
    wall-clock time of the machine, and [CHINA_TZ.localize] reads it as a
    Shanghai wall-clock time, eight hours earlier. On a machine that runs
    on the configured zone the same file is kept. *)
Theorem sweep_deletes_file_younger_than_cutoff :
  Sweeper.cutoff_date Sample.cfg Sample.now < Sweeper.mtime Sample.recent_file
  ∧ Sweeper.deleted
      (Sweeper.clean_old_exports Sample.cfg Sample.utc_machine Sample.now
         Sample.removable (Some [Sample.recent_file]))
    = ["front_2023-10-15.mp4"]
  ∧ Sweeper.deleted
      (Sweeper.clean_old_exports Sample.cfg Sample.shanghai_machine Sample.now
         Sample.removable (Some [Sample.recent_file]))
    = [].
Proof. vm_compute. repeat split. Qed.

(* ===================================================================== *)
(** * More on path resolution *)
(* ===================================================================== *)

Section ResolvedPaths.

Import Path.

Lemma has_sep_app_sep (a b : string) : has_sep (a +:+ String "/" b) = true.
Proof.
  induction a as [|c r IH]; [done|].
  change (has_sep (String c (r +:+ String "/" b)) = true).
  cbn [has_sep]. rewrite IH. apply orb_true_r.
Qed.

Lemma endswith_has_sep (a : string) : endswith_sep a = true → has_sep a = true.
Proof.
  induction a as [|c r IH]; [done|]. cbn [endswith_sep has_sep].
  destruct r as [|c' r']; [by rewrite orb_false_r|].
  intros H. rewrite (IH H). apply orb_true_r.
Qed.

Lemma has_sep_app_l (a b : string) : has_sep a = true → has_sep (a +:+ b) = true.
Proof.
  induction a as [|c r IH]; [done|].
  change (has_sep (String c r) = true → has_sep (String c (r +:+ b)) = true).
  cbn [has_sep]. destruct (is_sep c); [done|]. exact IH.
Qed.

Lemma basename_after_sep (a b : string) :
  has_sep b = false → basename (a +:+ String "/" b) = b.
Proof.
  intros Hb. induction a as [|c r IH].
  - change (basename (String "/" b) = b). cbn [basename]. by rewrite Hb.
  - change (String c r +:+ String "/" b) with (String c (r +:+ String "/" b)).
    cbn [basename]. by rewrite has_sep_app_sep.
Qed.

Lemma basename_after_dir (a b : string) :
  endswith_sep a = true → has_sep b = false → basename (a +:+ b) = b.
Proof.
  intros Ha Hb. induction a as [|c r IH]; [done|].
  change (String c r +:+ b) with (String c (r +:+ b)). cbn [basename].
  destruct r as [|c' r'].
  - change (endswith_sep (String c "")) with (is_sep c) in Ha.
    change ("" +:+ b) with b. by rewrite Hb, Ha.
  - rewrite has_sep_app_l by (by apply endswith_has_sep). by apply IH.
Qed.

Lemma basename_no_sep_id (b : string) : has_sep b = false → basename b = b.
Proof.
  destruct b as [|c r]; [done|]. cbn [has_sep basename].
  intros [Hc Hr]%orb_false_iff. by rewrite Hr, Hc.
Qed.

(** The base name survives the join with any directory. *)
Lemma basename_join (a b : string) : has_sep b = false → basename (join a b) = b.
Proof.
  intros Hb. unfold join. rewrite (no_sep_not_absolute _ Hb). unfold join_sep.
  case_bool_decide as Ha; cbn [orb].
  - subst a. cbn. by apply basename_no_sep_id.
  - destruct (endswith_sep a) eqn:He.
    + cbn. by apply basename_after_dir.
    + by apply basename_after_sep.
Qed.

End ResolvedPaths.

Lemma basename_resolved (src video_path : string) :
  video_path ≠ "" →
  Path.basename (get_real_file_path src video_path) = Path.basename video_path.
Proof.
  intros Hne. unfold get_real_file_path. rewrite bool_decide_eq_false_2 by done.
  apply basename_join, basename_no_sep.
Qed.

(** X1. Resolving a path keeps its base name, and resolving the result
    again changes nothing: what [get_real_file_path] returns, it maps to
    itself. *)
Theorem get_real_file_path_idempotent (src video_path : string) :
  get_real_file_path src (get_real_file_path src video_path)
  = get_real_file_path src video_path
  ∧ (video_path ≠ "" →
     Path.basename (get_real_file_path src video_path) = Path.basename video_path).
Proof.
  assert (Hbase : video_path ≠ "" →
            Path.basename (get_real_file_path src video_path)
            = Path.basename video_path).
  { intros Hne. unfold get_real_file_path. rewrite bool_decide_eq_false_2 by done.
    apply basename_join, basename_no_sep. }
  split; [|exact Hbase].
  destruct (decide (video_path = "")) as [->|Hne]; [done|].
  unfold get_real_file_path at 1.
  case_bool_decide as Hreal; [by rewrite Hreal|].
  rewrite (Hbase Hne). unfold get_real_file_path.
  by rewrite bool_decide_eq_false_2.
Qed.

Lemma get_real_file_path_idempotent_witness :
  get_real_file_path "/data/exports" Sample.on_disk = Sample.on_disk
  ∧ Path.basename Sample.on_disk = "front_2024-01-01.mp4".
Proof.
  destruct (get_real_file_path_idempotent "/data/exports" Sample.video) as [H1 H2].
  split.
  - exact H1.
  - transitivity (Path.basename Sample.video); [|reflexivity].
    apply H2. discriminate.
Defined.

(* ===================================================================== *)
(** * Durations *)
(* ===================================================================== *)

Ltac lia_div := Z.to_euclidean_division_equations; lia.

(** X2. The hours, minutes and seconds that [format_duration] prints add
    up to the duration, with minutes and seconds below 60. Hours are shown
    exactly for a duration of 3600 seconds or more, and a duration below
    that shows minutes only when its minute part is positive; a negative
    duration never shows hours. *)
Theorem format_duration_parts (seconds : Z) :
  ∃ hours minutes secs,
    seconds = hours * 3600 + minutes * 60 + secs
    ∧ 0 ≤ minutes < 60 ∧ 0 ≤ secs < 60
    ∧ Duration.format_duration seconds
      = if bool_decide (3600 ≤ seconds) then
          pretty hours +:+ "小时" +:+ pretty minutes +:+ "分钟" +:+ pretty secs +:+ "秒"
        else if bool_decide (0 < minutes) then
          pretty minutes +:+ "分钟" +:+ pretty secs +:+ "秒"
        else pretty secs +:+ "秒".
Proof.
  exists (seconds / 3600), ((seconds mod 3600) / 60), (seconds mod 60).
  split_and!; try lia_div.
  unfold Duration.format_duration. cbv zeta.
  destruct (0 <? seconds / 3600) eqn:Hh.
  - apply Z.ltb_lt in Hh. rewrite bool_decide_eq_true_2 by lia_div. done.
  - apply Z.ltb_ge in Hh. rewrite (bool_decide_eq_false_2 (3600 ≤ seconds)) by lia_div.
    destruct (0 <? seconds mod 3600 / 60) eqn:Hm.
    + apply Z.ltb_lt in Hm. by rewrite bool_decide_eq_true_2.
    + apply Z.ltb_ge in Hm. by rewrite bool_decide_eq_false_2 by lia.
Qed.

(** X3. Below one minute only the seconds are printed, below one hour the
    minutes and the seconds, from one hour on all three. *)
Theorem format_duration_ranges (seconds : Z) :
  0 ≤ seconds →
  Duration.format_duration seconds
  = if bool_decide (seconds < 60) then pretty seconds +:+ "秒"
    else if bool_decide (seconds < 3600) then
      pretty (seconds / 60) +:+ "分钟" +:+ pretty (seconds mod 60) +:+ "秒"
    else
      pretty (seconds / 3600) +:+ "小时" +:+ pretty (seconds mod 3600 / 60)
      +:+ "分钟" +:+ pretty (seconds mod 60) +:+ "秒".
Proof.
  intros Hpos. unfold Duration.format_duration. cbv zeta.
  case_bool_decide as H60; [|case_bool_decide as H3600].
  - rewrite (Z.div_small seconds 3600), (Z.mod_small seconds 3600) by lia.
    rewrite (Z.div_small seconds 60), (Z.mod_small seconds 60) by lia. done.
  - rewrite (Z.div_small seconds 3600), (Z.mod_small seconds 3600) by lia.
    replace (0 <? 0) with false by done.
    replace (0 <? seconds / 60) with true; [done|].
    symmetry. apply Z.ltb_lt. apply Z.div_str_pos. lia.
  - replace (0 <? seconds / 3600) with true; [done|].
    symmetry. apply Z.ltb_lt. apply Z.div_str_pos. lia.
Qed.

Lemma format_duration_ranges_witness :
  Duration.format_duration 3725 = "1小时2分钟5秒"
  ∧ Duration.format_duration 125 = "2分钟5秒"
  ∧ Duration.format_duration 59 = "59秒".
Proof.
  split_and!.
  - rewrite (format_duration_ranges 3725) by lia. reflexivity.
  - rewrite (format_duration_ranges 125) by lia. reflexivity.
  - rewrite (format_duration_ranges 59) by lia. reflexivity.
Defined.

(* ===================================================================== *)
(** * More on the trigger requests *)
(* ===================================================================== *)

Section RequestOrder.

Import Requester.

Lemma attempted_prefix (exits : nat → bool) (cameras : list string) :
  ∀ i, attempted exits i cameras `prefix_of` cameras.
Proof.
  induction cameras as [|c rest IH]; intros i; cbn [attempted]; [done|].
  destruct (exits i); [apply prefix_nil | by apply prefix_cons].
Qed.

Lemma accepted_sublist_attempted (env : nat → attempt) (cameras : list string) :
  ∀ i, accepted_cameras env i cameras
       `sublist_of` attempted (λ k, exit_flag (env k)) i cameras.
Proof.
  induction cameras as [|c rest IH]; intros i;
    cbn [accepted_cameras attempted]; [done|].
  destruct (exit_flag (env i)); [done|].
  destruct (accepted (post_outcome (env i)));
    [by apply sublist_skip | by apply sublist_cons].
Qed.

End RequestOrder.

(** X4. [export_previous_day_recordings] asks for the cameras of its list
    one after the other and returns them in that order: the cameras it
    requested are a beginning of the list, and the cameras it returns are
    picked from the requested ones without reordering. *)
Theorem export_keeps_camera_order (cfg : Config) (default_day : Calendar.date)
    (config_cameras : option (list string)) (env : nat → Requester.attempt)
    (times : gmap string Z) (cameras : option (list string))
    (date : option string) (time_range : option (Z * Z)) :
  let cams := default (Requester.get_cameras config_cameras) cameras in
  let r := Requester.export_previous_day_recordings cfg default_day
             config_cameras env times cameras date time_range in
  map Requester.trig_camera (Requester.triggers r) `prefix_of` cams
  ∧ map Requester.item_camera (Requester.exported_files r)
    `sublist_of` map Requester.trig_camera (Requester.triggers r).
Proof.
  intros cams r. subst r. unfold Requester.export_previous_day_recordings.
  destruct (Requester.resolve_window cfg default_day date time_range) as [s e| |];
    [|split; [apply prefix_nil | done]..].
  replace (match cameras with Some cs => cs | None => Requester.get_cameras config_cameras end)
    with cams by (subst cams; by destruct cameras).
  destruct (trigger_loop_lists env s e cams 0%nat times) as [-> ->].
  rewrite !map_map. cbn. rewrite !map_id.
  split; [apply attempted_prefix | apply accepted_sublist_attempted].
Qed.

(** X5. A request that is not accepted leaves the start time recorded for
    its camera as it was: [export_start_times] changes only for the cameras
    the function returns. *)
Theorem export_keeps_other_start_times (cfg : Config) (default_day : Calendar.date)
    (config_cameras : option (list string)) (env : nat → Requester.attempt)
    (times : gmap string Z) (cameras : option (list string))
    (date : option string) (time_range : option (Z * Z)) (c : string) :
  let r := Requester.export_previous_day_recordings cfg default_day
             config_cameras env times cameras date time_range in
  c ∉ map Requester.item_camera (Requester.exported_files r) →
  Requester.export_start_times r !! c = times !! c.
Proof.
  intros r. subst r. unfold Requester.export_previous_day_recordings.
  destruct (Requester.resolve_window cfg default_day date time_range) as [s e| |];
    [|done..].
  set (cams := match cameras with Some cs => cs | None => _ end).
  destruct (trigger_loop_lists env s e cams 0%nat times) as [-> _].
  rewrite map_map. cbn. rewrite map_id.
  apply (trigger_loop_times env s e cams c 0%nat times).
Qed.

Lemma export_keeps_other_start_times_witness :
  let r := Requester.export_previous_day_recordings Sample.cfg Sample.day
             None Sample.some_fail {[ "yard" := 1700000000 ]}
             (Some ["front"; "yard"]) None None in
  Requester.export_start_times r !! "yard" = Some 1700000000.
Proof.
  intros r. subst r.
  rewrite (export_keeps_other_start_times Sample.cfg Sample.day None Sample.some_fail
             {[ "yard" := 1700000000 ]} (Some ["front"; "yard"]) None None "yard").
  - reflexivity.
  - vm_compute. intros H. inversion H as [|? ? ? H']; subst. inversion H'.
Defined.

(** X6. [main] passes no hour range when the hours are 0 and 23, and the
    window is the one the two hours give either way. *)
Theorem main_hour_range_is_transparent (cfg : Config) (default_day : Calendar.date)
    (a : Pipeline.args) :
  Requester.resolve_window cfg default_day (Pipeline.arg_date a) (Pipeline.time_range_of a)
  = Requester.resolve_window cfg default_day (Pipeline.arg_date a)
      (Some (Pipeline.arg_start_hour a, Pipeline.arg_end_hour a)).
Proof.
  unfold Pipeline.time_range_of.
  destruct (Pipeline.arg_start_hour a =? 0) eqn:Hs;
    destruct (Pipeline.arg_end_hour a =? 23) eqn:He; cbn [negb orb]; try done.
  apply Z.eqb_eq in Hs, He. rewrite Hs, He. done.
Qed.

(* ===================================================================== *)
(** * More on the polling loop *)
(* ===================================================================== *)

Section TrackerMore.

Import Tracker.

Context (cfg : Config) (target : string).

Implicit Types (P : gset string) (S : gmap string Z).

(** The loop sleeps after every poll but the one that empties the set. *)
Lemma poll_loop_naps (start_time max_wait_time : Z) (ticks : list tick) :
  ∀ P S (queries naps : nat) (r : run),
    poll_loop cfg target start_time max_wait_time ticks P S queries naps = Some r →
    (P = ∅ → returned r = true ∧ status_queries r = queries ∧ sleeps r = naps)
    ∧ (P ≠ ∅ → returned r = true →
       (status_queries r + naps = Datatypes.S (sleeps r) + queries)%nat)
    ∧ (returned r = false → (status_queries r + naps = sleeps r + queries)%nat).
Proof.
  induction ticks as [|t later IH]; intros P S queries naps r Hrun; [done|].
  cbn [poll_loop] in Hrun.
  destruct (is_empty P) eqn:HP.
  - rewrite andb_false_r in Hrun. inversion Hrun; subst r; clear Hrun. cbn.
    rewrite HP. apply is_empty_true in HP. split_and!; try done.
  - apply is_empty_false in HP as HP'. rewrite andb_true_r in Hrun.
    destruct (within_deadline start_time max_wait_time t).
    + destruct (exports_response t) as [exports|].
      * destruct (check_cameras cfg target exports (disk t) (set_order t) (P, S)) as [P' S'].
        destruct (is_empty P') eqn:HP1.
        -- inversion Hrun; subst r; clear Hrun. cbn. split_and!; try done. lia.
        -- apply is_empty_false in HP1.
           destruct (IH _ _ _ _ _ Hrun) as (_ & Htrue & Hfalse).
           split_and!; [done | intros _ Hr; specialize (Htrue HP1 Hr); lia
                        | intros Hr; specialize (Hfalse Hr); lia].
      * destruct (IH _ _ _ _ _ Hrun) as (_ & Htrue & Hfalse).
        split_and!; [done | intros _ Hr; specialize (Htrue HP' Hr); lia
                     | intros Hr; specialize (Hfalse Hr); lia].
    + inversion Hrun; subst r; clear Hrun. cbn.
      split_and!; try done; [|intros _; lia].
      intros _. apply is_empty_false in HP'. congruence.
Qed.

(** What [purge] leaves in the ledger. *)
Lemma purge_lookup (ces : list ExportRecord) (p : string) :
  ∀ S, purge cfg S ces !! p
       = if bool_decide (p ∈ map (purged_path cfg) ces) then None else S !! p.
Proof.
  unfold purge. induction ces as [|e rest IH]; intros S; cbn [foldl map].
  - rewrite bool_decide_eq_false_2; [done | by intros ?%elem_of_nil].
  - rewrite IH. destruct (decide (p ∈ map (purged_path cfg) rest)) as [Hin|Hnot].
    + rewrite !bool_decide_eq_true_2; [done | by right | done].
    + rewrite (bool_decide_eq_false_2 _ Hnot).
      destruct (decide (p = purged_path cfg e)) as [->|Hne].
      * rewrite bool_decide_eq_true_2 by (by left). apply lookup_delete_eq.
      * rewrite bool_decide_eq_false_2.
        -- by apply lookup_delete_ne.
        -- intros [?|?]%elem_of_cons; done.
Qed.

Context (exports : list ExportRecord) (disk : gmap string Z).

(** The new value of a ledger entry is its old value, nothing, or the size
    of the file on disk. *)
Lemma all_files_stable_values (ces : list ExportRecord) (p : string) :
  ∀ S, (all_files_stable cfg disk S ces).2 !! p = S !! p
       ∨ (is_Some (path_size disk p)
          ∧ (all_files_stable cfg disk S ces).2 !! p = path_size disk p).
Proof.
  induction ces as [|e rest IH]; intros S; cbn [all_files_stable]; [by left|].
  destruct (path_size disk (watched_path cfg e)) as [cur|] eqn:Hsz; [|apply IH].
  assert (Hnew : ∀ S' : gmap string Z,
            S' !! p = <[watched_path cfg e := cur]> S !! p →
            S' !! p = S !! p ∨ (is_Some (path_size disk p) ∧ S' !! p = path_size disk p)).
  { intros S' ->. destruct (decide (watched_path cfg e = p)) as [<-|Hne].
    - right. rewrite lookup_insert_eq, Hsz. by split; [eexists|].
    - left. by rewrite lookup_insert_ne. }
  destruct (negb _); cbn [snd]; [by apply Hnew|].
  destruct (IH (<[watched_path cfg e := cur]> S)) as [H|H]; [by apply Hnew | by right].
Qed.

Lemma record_progress_values (ips : list ExportRecord) (p : string) :
  ∀ S, record_progress cfg disk S ips !! p = S !! p
       ∨ (is_Some (path_size disk p)
          ∧ record_progress cfg disk S ips !! p = path_size disk p).
Proof.
  unfold record_progress. induction ips as [|e rest IH]; intros S; cbn [foldl]; [by left|].
  destruct (path_size disk (watched_path cfg e)) as [cur|] eqn:Hsz; [|apply IH].
  destruct (IH (<[watched_path cfg e := cur]> S)) as [H|H]; [|by right].
  rewrite H. destruct (decide (watched_path cfg e = p)) as [<-|Hne].
  - right. rewrite lookup_insert_eq, Hsz. by split; [eexists|].
  - left. by rewrite lookup_insert_ne.
Qed.

Lemma check_camera_values P S (c p : string) :
  (check_camera cfg target exports disk (P, S) c).2 !! p = S !! p
  ∨ (check_camera cfg target exports disk (P, S) c).2 !! p = None
  ∨ (is_Some (path_size disk p)
     ∧ (check_camera cfg target exports disk (P, S) c).2 !! p = path_size disk p).
Proof.
  rewrite check_camera_unfold. cbv zeta.
  destruct (_ && _).
  - pose proof (all_files_stable_values (filter (matches c target) exports) p S) as Hscan.
    destruct (all_files_stable _ _ _ _).1; cbn [snd].
    + rewrite purge_lookup. case_bool_decide; [by right; left|].
      destruct Hscan as [?|?]; [by left | by right; right].
    + destruct Hscan as [?|?]; [by left | by right; right].
  - destruct (bool_decide _); cbn [snd]; [by left|].
    destruct (record_progress_values
                (filter in_progress (filter (matches c target) exports)) p S) as [?|?];
      [by left | by right; right].
Qed.

Lemma ledger_agrees_after P S (c : string) (ces : list ExportRecord) :
  ledger_agrees cfg disk S ces →
  ledger_agrees cfg disk (check_camera cfg target exports disk (P, S) c).2 ces.
Proof.
  intros Hagree e size He Hsz.
  destruct (check_camera_values P S c (watched_path cfg e)) as [H|[H|[_ H]]];
    rewrite H.
  - by apply Hagree.
  - by left.
  - by right.
Qed.

Lemma all_files_stable_complete (ces : list ExportRecord) :
  ∀ S, ledger_agrees cfg disk S ces → (all_files_stable cfg disk S ces).1 = true.
Proof.
  induction ces as [|e rest IH]; intros S Hagree; cbn [all_files_stable]; [done|].
  assert (Hrest : ledger_agrees cfg disk S rest)
    by (intros e' size He' Hsz; apply Hagree; [by right | done]).
  destruct (path_size disk (watched_path cfg e)) as [cur|] eqn:Hsz; [|by apply IH].
  assert (Hlast : default cur (S !! watched_path cfg e) = cur).
  { destruct (Hagree e cur) as [H|H]; [by left | done | by rewrite H..]. }
  rewrite Hlast, Z.eqb_refl. cbn [negb]. apply IH.
  intros e' size He' Hsz'.
  destruct (decide (watched_path cfg e = watched_path cfg e')) as [Heq|Hne].
  - right. rewrite <- Heq, lookup_insert_eq. rewrite <- Heq in Hsz'. congruence.
  - rewrite lookup_insert_ne by done. by apply Hrest.
Qed.

Lemma filter_in_progress_nil (ces : list ExportRecord) :
  (∀ e, e ∈ ces → default false (rec_in_progress e) = false) →
  filter in_progress ces = [].
Proof.
  induction ces as [|e rest IH]; intros Hdone; [done|].
  rewrite (filter_cons_False in_progress).
  - apply IH. intros e' He'. apply Hdone. by right.
  - unfold in_progress. rewrite (Hdone e) by (by left). done.
Qed.

Lemma foldl_check_camera_removes (l : list string) (c : string) :
  c ∈ l →
  filter (matches c target) exports ≠ [] →
  (∀ e, e ∈ filter (matches c target) exports →
        default false (rec_in_progress e) = false) →
  ∀ P S,
    ledger_agrees cfg disk S (filter (matches c target) exports) →
    c ∉ (foldl (check_camera cfg target exports disk) (P, S) l).1.
Proof.
  intros Hin Hces Hdone.
  induction l as [|c0 l IH]; intros P S Hagree; [by apply elem_of_nil in Hin|].
  cbn [foldl].
  destruct (check_camera cfg target exports disk (P, S) c0) as [P1 S1] eqn:Hstep.
  destruct (decide (c0 = c)) as [->|Hne].
  - assert (Hgone : c ∉ P1).
    { pose proof (check_camera_unfold cfg target exports disk P S c) as Hun.
      rewrite Hstep in Hun. cbv zeta in Hun.
      rewrite (filter_in_progress_nil _ Hdone) in Hun.
      rewrite bool_decide_eq_true_2 in Hun by done.
      rewrite (bool_decide_eq_false_2 (_ = [])) in Hun by done.
      cbn [andb negb] in Hun.
      rewrite (all_files_stable_complete _ _ Hagree) in Hun.
      inversion Hun; subst.
      apply not_elem_of_difference. right. by apply elem_of_singleton. }
    intros Hc. apply Hgone.
    by apply (foldl_check_camera_subset cfg target exports disk l P1 S1).
  - apply elem_of_cons in Hin as [->|Hin]; [done|].
    apply (IH Hin).
    pose proof (ledger_agrees_after P S c0 _ Hagree) as H.
    by rewrite Hstep in H.
Qed.


End TrackerMore.



(** X7. The converse of the removal condition. A pending camera that has a
    matched record, none of them in progress, and whose files on disk all
    have the size the ledger holds for them (or no entry in the ledger) is
    removed from the pending set in that pass, wherever it comes in the
    order of iteration. *)
Theorem done_and_unchanged_is_removed (cfg : Config) (target : string)
    (exports : list ExportRecord) (disk : gmap string Z) (order : list string)
    (pending_cameras : gset string) (file_sizes : gmap string Z) (camera : string) :
  camera ∈ pending_cameras →
  filter (Tracker.matches camera target) exports ≠ [] →
  (∀ e, e ∈ filter (Tracker.matches camera target) exports →
        default false (rec_in_progress e) = false) →
  (∀ e size,
     e ∈ filter (Tracker.matches camera target) exports →
     path_size disk (Tracker.watched_path cfg e) = Some size →
     file_sizes !! Tracker.watched_path cfg e = None
     ∨ file_sizes !! Tracker.watched_path cfg e = Some size) →
  camera ∉ (Tracker.check_cameras cfg target exports disk order
              (pending_cameras, file_sizes)).1.
Proof.
  intros Hin Hces Hdone Hagree. unfold Tracker.check_cameras. cbn [fst].
  apply foldl_check_camera_removes; [by apply elem_of_pass_order | done..].
Qed.

Lemma done_and_unchanged_is_removed_witness :
  Sample.cam ∉ (Tracker.check_cameras Sample.cfg "2024-01-01" [Sample.record false]
                  {[ Sample.on_disk := 100 ]} ["yard"; Sample.cam]
                  ({[ Sample.cam; "yard" ]}, {[ Sample.on_disk := 100 ]})).1.
Proof.
  apply done_and_unchanged_is_removed.
  - set_solver.
  - vm_compute. discriminate.
  - intros e He. vm_compute in He. inversion He as [|? ? ? H]; subst; [done|inversion H].
  - intros e size He Hsz. vm_compute in He.
    inversion He as [|? ? ? H]; subst; [|inversion H].
    right. vm_compute in Hsz. vm_compute. exact Hsz.
Defined.

(** X8. The examination that takes a camera out of the pending set leaves
    the ledger, as it stands right after that examination, without an
    entry for the resolved path of any matched record of the camera that
    has a video path. (A camera examined later in the same pass, with a
    record on the same path, may enter it again.) *)
Theorem confirmed_camera_leaves_no_ledger_entry (cfg : Config) (target : string)
    (exports : list ExportRecord) (disk : gmap string Z)
    (pending_cameras : gset string) (file_sizes : gmap string Z)
    (camera : string) (e : ExportRecord) (video_path : string) :
  camera ∈ pending_cameras →
  camera ∉ (Tracker.check_camera cfg target exports disk
              (pending_cameras, file_sizes) camera).1 →
  e ∈ filter (Tracker.matches camera target) exports →
  rec_video_path e = Some video_path →
  (Tracker.check_camera cfg target exports disk
     (pending_cameras, file_sizes) camera).2
    !! get_real_file_path (SOURCE_PATH cfg) video_path = None.
Proof.
  intros Hin Hout He Hvp. rewrite check_camera_unfold in Hout |- *. cbv zeta in *.
  destruct (_ && _).
  - destruct (Tracker.all_files_stable _ _ _ _).1; cbn [fst snd] in *; [|done].
    rewrite purge_lookup. rewrite bool_decide_eq_true_2; [done|].
    apply list_elem_of_fmap. exists e. split; [|done].
    unfold Tracker.purged_path. by rewrite Hvp.
  - by destruct (bool_decide _).
Qed.

Lemma confirmed_camera_leaves_no_ledger_entry_witness :
  (Tracker.check_camera Sample.cfg "2024-01-01" [Sample.record false]
     {[ Sample.on_disk := 100 ]} ({[ Sample.cam ]}, {[ Sample.on_disk := 100 ]})
     Sample.cam).2 !! Sample.on_disk = None.
Proof.
  apply (confirmed_camera_leaves_no_ledger_entry Sample.cfg "2024-01-01"
           [Sample.record false] {[ Sample.on_disk := 100 ]} {[ Sample.cam ]}
           {[ Sample.on_disk := 100 ]} Sample.cam (Sample.record false) Sample.video).
  - set_solver.
  - vm_compute. intros H. inversion H.
  - vm_compute. by left.
  - reflexivity.
Defined.

(** X9. The cameras [check_export_status] reports as unresolved are
    cameras it was given, each named once. *)
Theorem unresolved_cameras_were_given (cfg : Config) (default_day : Calendar.date)
    (start_time : Z) (ticks : list Tracker.tick) (cameras : list string)
    (max_wait_time : Z) (date : option string) (r : Tracker.run) :
  Tracker.check_export_status cfg default_day start_time ticks cameras
    max_wait_time date = Some r →
  NoDup (Tracker.unresolved r)
  ∧ (∀ c, c ∈ Tracker.unresolved r → c ∈ cameras)
  ∧ (∀ c, c ∈ Tracker.pending_at_exit r → c ∈ cameras).
Proof.
  unfold Tracker.check_export_status.
  destruct (target_date_str default_day date) as [target|].
  - intros Hrun.
    destruct (poll_loop_spec _ _ _ _ _ _ _ _ _ _ Hrun)
      as (k & _ & _ & _ & Hpend & _ & Hun & _).
    assert (Hsub : ∀ c, c ∈ Tracker.pending_at_exit r → c ∈ cameras).
    { intros c Hc. rewrite Hpend in Hc.
      apply (polls_subset cfg target (take k ticks)) in Hc.
      by apply elem_of_list_to_set in Hc. }
    split_and!; [rewrite Hun; apply NoDup_elements | | done].
    intros c Hc. apply Hsub. rewrite Hun in Hc. by apply elem_of_elements.
  - intros [= <-]. cbn. split_and!; [constructor | by intros ? ?%elem_of_nil | ].
    by intros ? ?%not_elem_of_empty.
Qed.

Lemma unresolved_cameras_were_given_witness :
  let r := {| Tracker.returned := false;
              Tracker.pending_at_exit := {[ Sample.cam ]};
              Tracker.unresolved := [Sample.cam];
              Tracker.status_queries := 1;
              Tracker.sleeps := 1;
              Tracker.file_sizes_at_exit := {[ Sample.on_disk := 100 ]} |} in
  Tracker.check_export_status Sample.cfg Sample.day 0
    [Sample.seen 0 true (Some 100); Sample.seen 7200 true (Some 100)]
    [Sample.cam; Sample.cam] 7200 None = Some r
  ∧ NoDup (Tracker.unresolved r)
  ∧ (∀ c, c ∈ Tracker.unresolved r → c ∈ [Sample.cam; Sample.cam]).
Proof.
  intros r.
  assert (Hrun : Tracker.check_export_status Sample.cfg Sample.day 0
            [Sample.seen 0 true (Some 100); Sample.seen 7200 true (Some 100)]
            [Sample.cam; Sample.cam] 7200 None = Some r)
    by (vm_compute; reflexivity).
  split; [exact Hrun|].
  destruct (unresolved_cameras_were_given _ _ _ _ _ _ _ _ Hrun) as (H1 & H2 & _).
  split; [exact H1 | exact H2].
Defined.

(** X10. [check_export_status] sleeps after every status query except the
    one that confirms the last camera: a run that fails has slept as often
    as it has asked, and a run that succeeds has asked once more than it
    has slept, unless it never asked (no camera to wait for). *)
Theorem sleeps_between_queries (cfg : Config) (default_day : Calendar.date)
    (start_time : Z) (ticks : list Tracker.tick) (cameras : list string)
    (max_wait_time : Z) (date : option string) (r : Tracker.run) :
  Tracker.check_export_status cfg default_day start_time ticks cameras
    max_wait_time date = Some r →
  (Tracker.returned r = false → Tracker.sleeps r = Tracker.status_queries r)
  ∧ (Tracker.returned r = true →
     (cameras = [] ∧ Tracker.status_queries r = 0%nat ∧ Tracker.sleeps r = 0%nat)
     ∨ (cameras ≠ []
        ∧ Tracker.status_queries r = Datatypes.S (Tracker.sleeps r))).
Proof.
  unfold Tracker.check_export_status.
  destruct (target_date_str default_day date) as [target|].
  - intros Hrun.
    destruct (poll_loop_naps _ _ _ _ _ _ _ _ _ _ Hrun) as (Hempty & Htrue & Hfalse).
    split.
    + intros Hr. specialize (Hfalse Hr). lia.
    + intros Hr. destruct cameras as [|c cs].
      * left. destruct (Hempty eq_refl) as (_ & ? & ?). done.
      * right. split; [done|].
        assert (Hne : (list_to_set (c :: cs) : gset string) ≠ ∅).
        { intros Heq. assert (c ∈ (∅ : gset string)) as Hc; [|by apply not_elem_of_empty in Hc].
          rewrite <- Heq. apply elem_of_list_to_set. by left. }
        specialize (Htrue Hne Hr). lia.
  - intros [= <-]. cbn. split; [done | discriminate].
Qed.

Lemma sleeps_between_queries_witness :
  let r := {| Tracker.returned := true;
              Tracker.pending_at_exit := ∅;
              Tracker.unresolved := [];
              Tracker.status_queries := 2;
              Tracker.sleeps := 1;
              Tracker.file_sizes_at_exit := ∅ |} in
  Tracker.check_export_status Sample.cfg Sample.day 0
    [Sample.seen 0 true (Some 100); Sample.seen 30 false (Some 100)]
    [Sample.cam] 7200 None = Some r
  ∧ Tracker.status_queries r = Datatypes.S (Tracker.sleeps r).
Proof.
  intros r.
  assert (Hrun : Tracker.check_export_status Sample.cfg Sample.day 0
            [Sample.seen 0 true (Some 100); Sample.seen 30 false (Some 100)]
            [Sample.cam] 7200 None = Some r)
    by (vm_compute; reflexivity).
  split; [exact Hrun|].
  destruct (sleeps_between_queries _ _ _ _ _ _ _ _ Hrun) as [_ H].
  destruct (H eq_refl) as [(Hnil & _)|(_ & Hq)]; [discriminate | exact Hq].
Defined.

(** X11. The loop ends. If the clock has advanced by the 30 seconds of the
    sleep at every evaluation of the loop condition, a run returns within
    the ticks that cover [max_wait_time], and after the first status query
    it asks at most once per 30 seconds of [max_wait_time] (with the
    default of 7200 seconds: at most 240 queries). *)
Theorem polling_ends_within_the_deadline (cfg : Config) (default_day : Calendar.date)
    (start_time : Z) (ticks : list Tracker.tick) (cameras : list string)
    (max_wait_time : Z) (date : option string) :
  (∀ (i : nat) t, ticks !! i = Some t →
                  start_time + 30 * Z.of_nat i ≤ Tracker.clock t) →
  ticks ≠ [] →
  max_wait_time ≤ 30 * (Z.of_nat (List.length ticks) - 1) →
  ∃ r,
    Tracker.check_export_status cfg default_day start_time ticks cameras
      max_wait_time date = Some r
    ∧ (Tracker.status_queries r ≠ 0%nat →
       30 * (Z.of_nat (Tracker.status_queries r) - 1) < max_wait_time).
Proof.
  intros Hclock Hne Hlen. unfold Tracker.check_export_status.
  destruct (target_date_str default_day date) as [target|];
    [|eexists; split; [reflexivity | done]].
  assert (Hlate : Exists (λ t, Tracker.within_deadline start_time max_wait_time t = false)
                         ticks).
  { destruct (lookup_lt_is_Some_2 ticks (List.length ticks - 1)) as [t Ht].
    { destruct ticks; [done | cbn; lia]. }
    apply Exists_exists. exists t. split; [by eapply list_elem_of_lookup_2|].
    specialize (Hclock _ _ Ht). unfold Tracker.within_deadline.
    replace (Tracker.clock t - start_time <? max_wait_time) with false; [done|].
    symmetry. apply Z.ltb_ge.
    assert (List.length ticks ≠ 0%nat) by (by destruct ticks). lia. }
  destruct (poll_loop_returns cfg target start_time max_wait_time ticks Hlate
              (list_to_set cameras) ∅ 0%nat 0%nat) as [r Hrun].
  exists r. split; [done|]. intros Hq.
  destruct (poll_loop_spec _ _ _ _ _ _ _ _ _ _ Hrun)
    as (k & Hk & Hle & Hall & _).
  cbn in Hk. subst k.
  destruct (lookup_lt_is_Some_2 ticks (Tracker.status_queries r - 1)) as [t Ht]; [lia|].
  assert (Hin : take (Tracker.status_queries r) ticks
                  !! (Tracker.status_queries r - 1)%nat = Some t)
    by (rewrite lookup_take_lt by lia; done).
  pose proof (Forall_lookup_1 _ _ _ _ Hall Hin) as Hw. cbn in Hw.
  unfold Tracker.within_deadline in Hw. apply andb_true_iff in Hw as [Hw _].
  apply Z.ltb_lt in Hw. specialize (Hclock _ _ Ht). lia.
Qed.

Lemma polling_ends_within_the_deadline_witness :
  ∃ r,
    Tracker.check_export_status Sample.cfg Sample.day 0
      [Sample.seen 0 true (Some 100); Sample.seen 30 true (Some 200);
       Sample.seen 60 true (Some 300)]
      [Sample.cam] 60 None = Some r
    ∧ (Tracker.status_queries r ≠ 0%nat →
       30 * (Z.of_nat (Tracker.status_queries r) - 1) < 60).
Proof.
  apply polling_ends_within_the_deadline.
  - intros [|[|[|i]]] t Ht; cbn in Ht; inversion Ht; subst; cbn; lia.
  - discriminate.
  - cbn. lia.
Defined.

(* ===================================================================== *)
(** * More on relocation *)
(* ===================================================================== *)

Section RelocatorMore.

Import Relocator.

Context (cfg : Config).

(** Every move of the loop is the move of the file of one of its records,
    to the same base name under [DEST_PATH]. *)
Lemma move_loop_moves (env : nat → step) (target_exports : list ExportRecord)
    (src dst : string) :
  ∀ i fs moved,
    Move src dst ∈ (move_loop cfg env i target_exports fs moved).2 →
    ∃ e video_path,
      e ∈ target_exports
      ∧ rec_video_path e = Some video_path ∧ video_path ≠ ""
      ∧ src = get_real_file_path (SOURCE_PATH cfg) video_path
      ∧ dst = Path.join (DEST_PATH cfg) (Path.basename src).
Proof.
  induction target_exports as [|e rest IH]; intros i fs moved; cbn [move_loop].
  { by intros ?%elem_of_nil. }
  assert (Hrest : ∀ j fs' moved',
            Move src dst ∈ (move_loop cfg env j rest fs' moved').2 →
            ∃ e' video_path,
              e' ∈ e :: rest
              ∧ rec_video_path e' = Some video_path ∧ video_path ≠ ""
              ∧ src = get_real_file_path (SOURCE_PATH cfg) video_path
              ∧ dst = Path.join (DEST_PATH cfg) (Path.basename src)).
  { intros j fs' moved' Hin. destruct (IH _ _ _ Hin) as (e' & vp & ? & ?).
    exists e', vp. split; [by right | done]. }
  destruct (exit_flag (env i)); [by intros ?%elem_of_nil|].
  case_bool_decide as Hvp; cbn [orb]; [apply Hrest|].
  destruct (negb _); [apply Hrest|]. cbv zeta.
  destruct (shutil_move (env i) _ _ fs) as [[] fs1]; cbn [fst snd]; [|apply Hrest].
  specialize (Hrest (S i)).
  match goal with
  | |- context [move_loop cfg env (S i) rest ?fs' ?m'] =>
      specialize (Hrest fs' m'); destruct (move_loop cfg env (S i) rest fs' m') as [[fs2 m2] evs]
  end.
  cbn [snd] in *. intros [Heq|Hin]%elem_of_cons.
  - inversion Heq; subst. destruct (rec_video_path e) as [vp|] eqn:He; [|done].
    exists e, vp. split_and!; [by left | done..].
  - apply elem_of_app in Hin as [Hin|Hin]; [|by apply Hrest].
    case_bool_decide; [by apply elem_of_nil in Hin|].
    apply list_elem_of_singleton in Hin. discriminate.
Qed.

(** A record of the platform is deleted right after the move of its file,
    never otherwise. *)
Lemma move_loop_delete_follows_move (env : nat → step)
    (target_exports : list ExportRecord) :
  ∀ i fs moved before export_id after,
    (move_loop cfg env i target_exports fs moved).2
      = before ++ DeleteRecord export_id :: after →
    ∃ earlier src dst, before = earlier ++ [Move src dst].
Proof.
  induction target_exports as [|e rest IH];
    intros i fs moved before export_id after; cbn [move_loop].
  { cbn. by destruct before. }
  destruct (exit_flag (env i)); [cbn; by destruct before|].
  destruct (_ || _); [apply IH|]. cbv zeta.
  destruct (shutil_move (env i) _ _ fs) as [[] fs1]; cbn [fst snd]; [|apply IH].
  match goal with
  | |- context [move_loop cfg env (S i) rest ?fs' ?m'] =>
      specialize (IH (S i) fs' m');
      destruct (move_loop cfg env (S i) rest fs' m') as [[fs2 m2] evs]
  end.
  cbn [snd] in *. intros Heq.
  destruct before as [|ev before]; [discriminate|].
  cbn in Heq. injection Heq as <- Heq.
  case_bool_decide as Hid; cbn [app] in Heq.
  - destruct (IH _ _ _ Heq) as (earlier & src & dst & ->).
    eexists (_ :: earlier), src, dst. reflexivity.
  - destruct before as [|ev before].
    + eexists [], _, _. reflexivity.
    + cbn in Heq. injection Heq as <- Heq.
      destruct (IH _ _ _ Heq) as (earlier & src & dst & ->).
      eexists (_ :: _ :: earlier), src, dst. reflexivity.
Qed.

End RelocatorMore.

Lemma check_and_move_moves (cfg : Config)
    (default_day : Calendar.date) (exports_response : option (list ExportRecord))
    (makedirs_ok : bool) (env : nat → Relocator.step) (w : Relocator.world)
    (cameras : list string) (date : option string) (src dst : string) :
  Relocator.Move src dst
    ∈ Relocator.events
        (Relocator.check_and_move_exported_files cfg default_day exports_response
           makedirs_ok env w cameras date) →
  ∃ exports target e camera video_path,
    exports_response = Some exports
    ∧ target_date_str default_day date = Some target
    ∧ e ∈ exports
    ∧ rec_camera e = Some camera ∧ camera ∈ cameras
    ∧ default false (rec_in_progress e) = false
    ∧ Path.contains target (default "" (rec_name e)) = true
    ∧ rec_video_path e = Some video_path ∧ video_path ≠ ""
    ∧ src = get_real_file_path (SOURCE_PATH cfg) video_path
    ∧ dst = Path.join (DEST_PATH cfg) (Path.basename video_path).
Proof.
  unfold Relocator.check_and_move_exported_files.
  destruct exports_response as [exports|]; [|by intros ?%elem_of_nil].
  destruct makedirs_ok; cbn [negb]; [|by intros ?%elem_of_nil].
  destruct (target_date_str default_day date) as [target|].
  - pose proof (move_loop_moves cfg env
                  (filter (Relocator.is_target cameras target) exports) src dst
                  0%nat (Relocator.files w) 0) as Hloop.
    cbn [Relocator.files].
    destruct (Relocator.move_loop _ _ _ _ _ _) as [[fs moved] evs].
    cbn in Hloop |- *. intros [Hmk|Hin]%elem_of_cons; [discriminate|].
    destruct (Hloop Hin) as (e & vp & He & Hvp & Hne & -> & ->).
    apply list_elem_of_filter in He as [(Hcam & Hdone & Hname) He].
    apply list_elem_of_fmap in Hcam as (camera & Hcam & Hin').
    exists exports, target, e, camera, vp.
    split_and!; try done.
    by rewrite basename_resolved.
  - cbn. intros [Hmk|Hin]%elem_of_cons; [discriminate | by apply elem_of_nil in Hin].
Qed.

(** X12. Whatever [check_and_move_exported_files] moves is the resolved
    path of a record of the fetched list that belongs to one of the given
    cameras, is not in progress, carries the date string in its name and
    has a video path; it goes to [DEST_PATH] under the base name of that
    video path. *)
Theorem only_finished_exports_are_moved (cfg : Config)
    (default_day : Calendar.date) (exports_response : option (list ExportRecord))
    (makedirs_ok : bool) (env : nat → Relocator.step) (w : Relocator.world)
    (cameras : list string) (date : option string) (src dst : string) :
  Relocator.Move src dst
    ∈ Relocator.events
        (Relocator.check_and_move_exported_files cfg default_day exports_response
           makedirs_ok env w cameras date) →
  ∃ exports target e camera video_path,
    exports_response = Some exports
    ∧ target_date_str default_day date = Some target
    ∧ e ∈ exports
    ∧ rec_camera e = Some camera ∧ camera ∈ cameras
    ∧ default false (rec_in_progress e) = false
    ∧ Path.contains target (default "" (rec_name e)) = true
    ∧ rec_video_path e = Some video_path ∧ video_path ≠ ""
    ∧ src = get_real_file_path (SOURCE_PATH cfg) video_path
    ∧ dst = Path.join (DEST_PATH cfg) (Path.basename video_path).
Proof. apply check_and_move_moves. Qed.

Lemma only_finished_exports_are_moved_witness :
  ∃ exports target e camera video_path,
    Some [Sample.record true; Sample.record false] = Some exports
    ∧ target_date_str Sample.day None = Some target
    ∧ e ∈ exports
    ∧ rec_camera e = Some camera ∧ camera ∈ [Sample.cam]
    ∧ default false (rec_in_progress e) = false
    ∧ Path.contains target (default "" (rec_name e)) = true
    ∧ rec_video_path e = Some video_path ∧ video_path ≠ ""
    ∧ Sample.on_disk = get_real_file_path (SOURCE_PATH Sample.cfg) video_path
    ∧ "/backup/exports/front_2024-01-01.mp4"
      = Path.join (DEST_PATH Sample.cfg) (Path.basename video_path).
Proof.
  apply (only_finished_exports_are_moved Sample.cfg Sample.day
           (Some [Sample.record true; Sample.record false]) true Sample.smooth
           {| Relocator.files := {[ Sample.on_disk := 100 ]}; Relocator.dirs := ∅ |}
           [Sample.cam] None).
  vm_compute. right. left.
Defined.

(** X13. A record is deleted from the platform only right after the move of
    its file: every [DELETE] request of a run directly follows a move. *)
Theorem record_deleted_only_after_move (cfg : Config)
    (default_day : Calendar.date) (exports_response : option (list ExportRecord))
    (makedirs_ok : bool) (env : nat → Relocator.step) (w : Relocator.world)
    (cameras : list string) (date : option string)
    (before : list Relocator.event) (export_id : string)
    (after : list Relocator.event) :
  Relocator.events
    (Relocator.check_and_move_exported_files cfg default_day exports_response
       makedirs_ok env w cameras date)
    = before ++ Relocator.DeleteRecord export_id :: after →
  ∃ earlier src dst, before = earlier ++ [Relocator.Move src dst].
Proof.
  unfold Relocator.check_and_move_exported_files.
  destruct exports_response as [exports|]; [|by destruct before].
  destruct makedirs_ok; cbn [negb]; [|by destruct before].
  destruct (target_date_str default_day date) as [target|].
  - pose proof (move_loop_delete_follows_move cfg env
                  (filter (Relocator.is_target cameras target) exports)
                  0%nat (Relocator.files w) 0) as Hloop.
    cbn [Relocator.files].
    destruct (Relocator.move_loop _ _ _ _ _ _) as [[fs moved] evs].
    cbn in Hloop |- *. intros Heq.
    destruct before as [|ev before]; [discriminate|].
    cbn in Heq. injection Heq as <- Heq.
    destruct (Hloop _ _ _ Heq) as (earlier & src & dst & ->).
    by exists (Relocator.MakeDirs (DEST_PATH cfg) :: earlier), src, dst.
  - cbn. intros Heq. destruct before as [|ev [|ev' before]]; discriminate.
Qed.

Lemma record_deleted_only_after_move_witness :
  ∃ earlier src dst,
    [Relocator.MakeDirs "/backup/exports";
     Relocator.Move Sample.on_disk "/backup/exports/front_2024-01-01.mp4"]
    = earlier ++ [Relocator.Move src dst].
Proof.
  apply (record_deleted_only_after_move Sample.cfg Sample.day
           (Some [Sample.record false]) true Sample.smooth
           {| Relocator.files := {[ Sample.on_disk := 100 ]}; Relocator.dirs := ∅ |}
           [Sample.cam] None _ "a1b2" []).
  vm_compute. reflexivity.
Defined.

(* ===================================================================== *)
(** * More on retention *)
(* ===================================================================== *)

Section SweeperMore.

Import Sweeper.

Context (cfg : Config) (system_offset : Z → Z) (now : Z).




End SweeperMore.









(* ===================================================================== *)
(** * Settings *)
(* ===================================================================== *)

Section SettingsFacts.

Import Settings.

Context (parse_int : string → option Z) (zone_of : string → zone_lookup)
        (utc : TimeZone) (get : string → lookup).

Lemma getint_fallback (option_name : string) (fallback n : Z) :
  getint parse_int get option_name (Some fallback) = Some n
  ↔ get option_name = Missing ∧ n = fallback
    ∨ ∃ v, get option_name = Value v ∧ parse_int v = Some n.
Proof.
  unfold getint. destruct (get option_name) as [| |v].
  - split; [intros [= <-]; by left | by intros [[_ ->] | (? & ? & _)]].
  - split; [done | by intros [[? _] | (? & ? & _)]].
  - split; [intros H; right; by exists v | by intros [[? _] | (? & [= <-] & ?)]].
Qed.

Lemma getint_required (option_name : string) (n : Z) :
  getint parse_int get option_name None = Some n
  ↔ ∃ v, get option_name = Value v ∧ parse_int v = Some n.
Proof.
  unfold getint. destruct (get option_name) as [| |v].
  - split; [done | by intros (? & ? & _)].
  - split; [done | by intros (? & ? & _)].
  - split; [intros H; by exists v | by intros (? & [= <-] & ?)].
Qed.

Lemma zone_named_spec (name : string) (tz : TimeZone) :
  zone_named zone_of utc name = Some tz
  ↔ zone_of name = UnknownZone ∧ tz = utc ∨ zone_of name = Zone tz.
Proof.
  unfold zone_named. destruct (zone_of name) as [| |tz'].
  - split; [intros [= <-]; by left | by intros [[_ ->] | ?]].
  - split; [done | by intros [[? _] | ?]].
  - split; [intros [= <-]; by right | by intros [[? _] | [= <-]]].
Qed.

Lemma timezone_spec (tz : TimeZone) :
  timezone_name get ≫= zone_named zone_of utc = Some tz
  ↔ ∃ name,
      (get "timezone" = Value name
       ∨ get "timezone" = Missing ∧ name = "Asia/Shanghai")
      ∧ zone_named zone_of utc name = Some tz.
Proof.
  unfold timezone_name. destruct (get "timezone") as [| |name]; cbn.
  - split; [intros H; exists "Asia/Shanghai"; split; [by right | done]|].
    by intros (name & [? | [_ ->]] & ?).
  - split; [done | by intros (name & [? | [? _]] & ?)].
  - split; [intros H; exists name; split; [by left | done]|].
    by intros (name' & [[= <-] | [? _]] & ?).
Qed.

(** [load_config] on a file with a section [frigate]. *)
Lemma load_config_loaded (cfg : Config) :
  load_config parse_int zone_of utc (Parsed (Some get)) = Loaded cfg
  ↔ get "api_url" = Value (FRIGATE_API_URL cfg)
    ∧ get "source_path" = Value (SOURCE_PATH cfg)
    ∧ get "dest_path" = Value (DEST_PATH cfg)
    ∧ getint parse_int get "export_retention_days" None
      = Some (EXPORT_RETENTION_DAYS cfg)
    ∧ getint parse_int get "export_days_ago" (Some 1) = Some (EXPORT_DAYS_AGO cfg)
    ∧ timezone_name get ≫= zone_named zone_of utc = Some (CHINA_TZ cfg).
Proof.
  unfold load_config.
  destruct (get "api_url") as [| |api_url];
    [by split; [|intros (? & _)] | by split; [|intros (? & _)] |].
  destruct (get "source_path") as [| |source_path];
    [by split; [|intros (_ & ? & _)] | by split; [|intros (_ & ? & _)] |].
  destruct (get "dest_path") as [| |dest_path];
    [by split; [|intros (_ & _ & ? & _)] | by split; [|intros (_ & _ & ? & _)] |].
  destruct (getint parse_int get "export_retention_days" None) as [retention|];
    [|by split; [|intros (_ & _ & _ & ? & _)]].
  destruct (getint parse_int get "export_days_ago" (Some 1)) as [days_ago|];
    [|by split; [|intros (_ & _ & _ & _ & ? & _)]].
  destruct (timezone_name get ≫= zone_named zone_of utc) as [tz|];
    [|by split; [|intros (_ & _ & _ & _ & _ & ?)]].
  split.
  - by intros [= <-].
  - destruct cfg. cbn. by intros ([= ->] & [= ->] & [= ->] & [= ->] & [= ->] & [= ->]).
Qed.

End SettingsFacts.

(** X19. [load_config] succeeds exactly when the file could be read, has a
    section [frigate] whose options [api_url], [source_path] and
    [dest_path] can be read, an [export_retention_days] that reads as an
    integer, an [export_days_ago] that is absent or reads as an integer,
    and a [timezone] that is absent or can be read and over which
    [pytz.timezone] raises nothing but [UnknownTimeZoneError]. Otherwise
    it ends the process: with [sys.exit(1)], or, when [config.read] itself
    raises, with that exception. On success the days default to 1, the
    zone name to Asia/Shanghai, and an unknown zone name to UTC. *)
Theorem load_config_succeeds_iff (parse_int : string → option Z)
    (zone_of : string → Settings.zone_lookup) (utc : TimeZone)
    (file : Settings.read_result) :
  ((∃ cfg, Settings.load_config parse_int zone_of utc file = Settings.Loaded cfg)
   ↔ ∃ get api_url source_path dest_path retention,
       file = Settings.Parsed (Some get)
       ∧ get "api_url" = Settings.Value api_url
       ∧ get "source_path" = Settings.Value source_path
       ∧ get "dest_path" = Settings.Value dest_path
       ∧ get "export_retention_days" = Settings.Value retention
       ∧ is_Some (parse_int retention)
       ∧ (get "export_days_ago" = Settings.Missing
          ∨ ∃ days, get "export_days_ago" = Settings.Value days
                    ∧ is_Some (parse_int days))
       ∧ (get "timezone" = Settings.Missing
          ∧ zone_of "Asia/Shanghai" ≠ Settings.ZoneError
          ∨ ∃ name, get "timezone" = Settings.Value name
                    ∧ zone_of name ≠ Settings.ZoneError))
  ∧ (Settings.load_config parse_int zone_of utc file = Settings.Uncaught
     ↔ file = Settings.Malformed)
  ∧ (∀ get cfg,
       Settings.load_config parse_int zone_of utc (Settings.Parsed (Some get))
         = Settings.Loaded cfg →
       get "api_url" = Settings.Value (FRIGATE_API_URL cfg)
       ∧ get "source_path" = Settings.Value (SOURCE_PATH cfg)
       ∧ get "dest_path" = Settings.Value (DEST_PATH cfg)
       ∧ (∃ retention, get "export_retention_days" = Settings.Value retention
                       ∧ parse_int retention = Some (EXPORT_RETENTION_DAYS cfg))
       ∧ (get "export_days_ago" = Settings.Missing → EXPORT_DAYS_AGO cfg = 1)
       ∧ (∀ days, get "export_days_ago" = Settings.Value days →
                  parse_int days = Some (EXPORT_DAYS_AGO cfg))
       ∧ (∀ name,
            get "timezone" = Settings.Value name
            ∨ get "timezone" = Settings.Missing ∧ name = "Asia/Shanghai" →
            (zone_of name = Settings.UnknownZone ∧ CHINA_TZ cfg = utc)
            ∨ zone_of name = Settings.Zone (CHINA_TZ cfg))).
Proof.
  split_and!.
  - split.
    + intros [cfg Hok]. destruct file as [| |[get|]]; try done.
      apply load_config_loaded in Hok as (Hapi & Hsrc & Hdst & Hret & Hago & Htz).
      apply getint_required in Hret as (retention & Hret & Hint).
      apply getint_fallback in Hago.
      apply timezone_spec in Htz as (name & Hname & Hzone).
      apply zone_named_spec in Hzone.
      exists get, (FRIGATE_API_URL cfg), (SOURCE_PATH cfg), (DEST_PATH cfg), retention.
      split_and!; try done.
      * destruct Hago as [[? _] | (days & ? & ?)]; [by left|].
        right. exists days. split; [done | by eexists].
      * assert (Hne : zone_of name ≠ Settings.ZoneError)
          by (destruct Hzone as [[Hz _] | Hz]; by rewrite Hz).
        destruct Hname as [? | [? ->]]; [right; by exists name | by left].
    + intros (get & api_url & source_path & dest_path & retention & -> & Hapi & Hsrc
              & Hdst & Hret & [ret Hint] & Hago & Hzone).
      assert (Hdays : ∃ days_ago,
                Settings.getint parse_int get "export_days_ago" (Some 1)
                = Some days_ago).
      { destruct Hago as [Hmiss | (days & Hval & [d Hd])].
        - exists 1. apply getint_fallback. by left.
        - exists d. apply getint_fallback. right. by exists days. }
      destruct Hdays as [days_ago Hdays].
      assert (Htz : ∃ tz, Settings.timezone_name get
                          ≫= Settings.zone_named zone_of utc = Some tz).
      { assert (Hnamed : ∀ name, zone_of name ≠ Settings.ZoneError →
                  ∃ tz, Settings.zone_named zone_of utc name = Some tz).
        { intros name Hne. unfold Settings.zone_named.
          destruct (zone_of name); [by eexists | done | by eexists]. }
        destruct Hzone as [[Hmiss Hne] | (name & Hval & Hne)].
        - destruct (Hnamed _ Hne) as [tz Htz]. exists tz.
          apply timezone_spec. exists "Asia/Shanghai". split; [by right | done].
        - destruct (Hnamed _ Hne) as [tz Htz]. exists tz.
          apply timezone_spec. exists name. split; [by left | done]. }
      destruct Htz as [tz Htz].
      exists {| FRIGATE_API_URL := api_url; SOURCE_PATH := source_path;
                DEST_PATH := dest_path; EXPORT_RETENTION_DAYS := ret;
                EXPORT_DAYS_AGO := days_ago; CHINA_TZ := tz |}.
      apply load_config_loaded. cbn. split_and!; try done.
      apply getint_required. by exists retention.
  - unfold Settings.load_config. split.
    + destruct file as [| |[get|]]; try done.
      by repeat case_match.
    + by intros ->.
  - intros get cfg Hok.
    apply load_config_loaded in Hok as (Hapi & Hsrc & Hdst & Hret & Hago & Htz).
    apply getint_required in Hret as (retention & Hret & Hint).
    apply getint_fallback in Hago.
    apply timezone_spec in Htz as (name & Hname & Hzone).
    apply zone_named_spec in Hzone.
    split_and!; try done.
    + by exists retention.
    + intros Hmiss. destruct Hago as [[_ ?] | (days & Hval & _)]; [done | congruence].
    + intros days Hval. destruct Hago as [[Hmiss _] | (days' & Hval' & ?)]; congruence.
    + intros name' Hname'.
      assert (name' = name) as ->.
      { destruct Hname as [H1 | [H1 ->]], Hname' as [H2 | [H2 ->]]; congruence. }
      destruct Hzone as [[? ->] | ?]; [by left | by right].
Qed.

Lemma load_config_succeeds_iff_witness :
  (∃ cfg,
     Settings.load_config Fixture.parse_int (λ _, Settings.UnknownZone) (fixed_zone 0)
       (Settings.Parsed (Some Fixture.section)) = Settings.Loaded cfg
     ∧ EXPORT_DAYS_AGO cfg = 1
     ∧ CHINA_TZ cfg = fixed_zone 0)
  ∧ Settings.load_config Fixture.parse_int (λ _, Settings.UnknownZone) (fixed_zone 0)
      (Settings.Parsed (Some Fixture.section_with_percent)) = Settings.Exit1.
Proof.
  destruct (load_config_succeeds_iff Fixture.parse_int (λ _, Settings.UnknownZone)
              (fixed_zone 0) (Settings.Parsed (Some Fixture.section)))
    as ([_ Hok] & _ & Hval).
  split; [|reflexivity].
  destruct Hok as [cfg Hcfg].
  { exists Fixture.section, "http://frigate:5000", "/data/exports",
      "/backup/exports", "30".
    split_and!; try reflexivity; try (vm_compute; by eexists).
    - by left.
    - right. exists "Mars/Olympus". split; [reflexivity | discriminate]. }
  exists cfg. split; [exact Hcfg|].
  destruct (Hval Fixture.section cfg Hcfg) as (_ & _ & _ & _ & Hago & _ & Hzone).
  split; [by apply Hago|].
  destruct (Hzone "Mars/Olympus") as [[_ Hutc] | Hz];
    [by left | exact Hutc | discriminate].
Defined.

(* ===================================================================== *)
(** * The pipeline *)
(* ===================================================================== *)

Section PipelineFacts.

Import Pipeline.

(** With no camera to look for, relocation touches no file and deletes no
    record; at most it creates the directory. *)
Lemma check_and_move_no_cameras (cfg : Config) (default_day : Calendar.date)
    (exports_response : option (list ExportRecord)) (makedirs_ok : bool)
    (env : nat → Relocator.step) (w : Relocator.world) (date : option string) :
  let r := Relocator.check_and_move_exported_files cfg default_day exports_response
             makedirs_ok env w [] date in
  (Relocator.events r = [] ∨ Relocator.events r = [Relocator.MakeDirs (DEST_PATH cfg)])
  ∧ Relocator.files (Relocator.world_after r) = Relocator.files w.
Proof.
  intros r. subst r. unfold Relocator.check_and_move_exported_files.
  destruct exports_response as [exports|]; [|by split; [left|]].
  destruct makedirs_ok; cbn [negb]; [|by split; [left|]].
  destruct (target_date_str default_day date) as [target|]; [|by split; [right|]].
  assert (Hnone : filter (Relocator.is_target [] target) exports = []).
  { induction exports as [|e rest IH]; [done|].
    rewrite (filter_cons_False (Relocator.is_target [] target)); [done|].
    intros (Hcam & _). cbn in Hcam. by apply elem_of_nil in Hcam. }
  rewrite Hnone. cbn. by split; [right|].
Qed.

End PipelineFacts.

(** X21. When no export request is accepted (malformed date or hours, every
    request refused, or no camera), [main] does not poll the platform at
    all; it still runs the relocation, which moves no file and deletes no
    record, and then the retention sweep. *)
Theorem main_without_accepted_exports (cfg : Config) (a : Pipeline.args)
    (v : Pipeline.env) :
  Pipeline.complete cfg = true →
  Pipeline.exit_after_export v = false →
  Pipeline.exit_after_move v = false →
  Requester.exported_files
    (Requester.export_previous_day_recordings cfg (Pipeline.export_day v)
       (Pipeline.config_cameras v) (Pipeline.export_env v) ∅
       (Some (Pipeline.cameras_of a v)) (Pipeline.arg_date a)
       (Pipeline.time_range_of a)) = [] →
  ∃ done moved,
    Pipeline.main cfg a v = Some (Pipeline.Returned done)
    ∧ Pipeline.status done = None
    ∧ Pipeline.relocation done = Some moved
    ∧ (Relocator.events moved = []
       ∨ Relocator.events moved = [Relocator.MakeDirs (DEST_PATH cfg)])
    ∧ Relocator.files (Relocator.world_after moved) = Relocator.files (Pipeline.world v)
    ∧ Pipeline.sweep done
      = Some (Sweeper.clean_old_exports cfg (Pipeline.machine_offset v)
                (Pipeline.sweep_now v) (Pipeline.sweep_env v) (Pipeline.listing v)).
Proof.
  intros Hcfg Hexit1 Hexit3 Hnone. unfold Pipeline.main.
  rewrite Hcfg, Hexit1. cbn [negb]. cbv zeta. rewrite Hnone.
  unfold Pipeline.move_and_clean. rewrite Hexit3, Hnone. cbn [map].
  eexists _, _. split; [reflexivity|]. cbn.
  split_and!; try done;
    apply (check_and_move_no_cameras cfg (Pipeline.move_day v) (Pipeline.move_exports v)
             (Pipeline.makedirs_ok v) (Pipeline.move_env v) (Pipeline.world v)
             (Pipeline.arg_date a)).
Qed.

Lemma main_without_accepted_exports_witness :
  ∃ done moved,
    Pipeline.main Sample.cfg Fixture.args Fixture.env_refused
      = Some (Pipeline.Returned done)
    ∧ Pipeline.status done = None
    ∧ Pipeline.relocation done = Some moved
    ∧ Relocator.files (Relocator.world_after moved)
      = Relocator.files (Pipeline.world Fixture.env_refused).
Proof.
  destruct (main_without_accepted_exports Sample.cfg Fixture.args Fixture.env_refused)
    as (done & moved & H1 & H2 & H3 & _ & H5 & _).
  - reflexivity.
  - reflexivity.
  - reflexivity.
  - vm_compute. reflexivity.
  - exists done, moved. by split_and!.
Defined.

(** X22. Through [main], whatever is moved is the resolved path of a
    finished record of a camera whose export request was accepted in this
    run: the record's video path resolves to the source of the move, its
    base name under [DEST_PATH] is the destination, and the camera of the
    record is one of the cameras [main] asked for, at a position the loop
    reached and whose POST came back with 200 or 201. *)
Theorem main_moves_only_accepted_cameras (cfg : Config) (a : Pipeline.args)
    (v : Pipeline.env) (done : Pipeline.stages) (moved : Relocator.run)
    (src dst : string) :
  Pipeline.main cfg a v = Some (Pipeline.Returned done) →
  Pipeline.relocation done = Some moved →
  Relocator.Move src dst ∈ Relocator.events moved →
  ∃ exports e camera video_path (k : nat),
    Pipeline.move_exports v = Some exports
    ∧ e ∈ exports
    ∧ rec_camera e = Some camera
    ∧ default false (rec_in_progress e) = false
    ∧ rec_video_path e = Some video_path
    ∧ src = get_real_file_path (SOURCE_PATH cfg) video_path
    ∧ dst = Path.join (DEST_PATH cfg) (Path.basename video_path)
    ∧ Pipeline.cameras_of a v !! k = Some camera
    ∧ Requester.accepted (Requester.post_outcome (Pipeline.export_env v k)) = true.
Proof.
  intros Hmain Hmoved Hin.
  set (run := Requester.export_previous_day_recordings cfg (Pipeline.export_day v)
                (Pipeline.config_cameras v) (Pipeline.export_env v) ∅
                (Some (Pipeline.cameras_of a v)) (Pipeline.arg_date a)
                (Pipeline.time_range_of a)).
  assert (Hrel : moved
                 = Relocator.check_and_move_exported_files cfg (Pipeline.move_day v)
                     (Pipeline.move_exports v) (Pipeline.makedirs_ok v)
                     (Pipeline.move_env v) (Pipeline.world v)
                     (map Requester.item_camera (Requester.exported_files run))
                     (Pipeline.arg_date a)).
  { unfold Pipeline.main in Hmain. fold run in Hmain.
    destruct (negb (Pipeline.complete cfg)); [done|].
    cbv zeta in Hmain.
    destruct (Pipeline.exit_after_export v).
    { injection Hmain as <-. done. }
    assert (Hmc : ∀ waited,
              Pipeline.move_and_clean cfg a v run waited = Pipeline.Returned done →
              Pipeline.relocation done
              = Some (Relocator.check_and_move_exported_files cfg (Pipeline.move_day v)
                        (Pipeline.move_exports v) (Pipeline.makedirs_ok v)
                        (Pipeline.move_env v) (Pipeline.world v)
                        (map Requester.item_camera (Requester.exported_files run))
                        (Pipeline.arg_date a))).
    { intros waited. unfold Pipeline.move_and_clean.
      destruct (Pipeline.exit_after_move v); by intros [= <-]. }
    destruct (Requester.exported_files run) eqn:Hfiles.
    - injection Hmain as Hmain. rewrite <- Hfiles in Hmc.
      specialize (Hmc _ Hmain). congruence.
    - destruct (Tracker.check_export_status _ _ _ _ _ _ _) as [waited|]; [|done].
      destruct (Pipeline.exit_after_status v).
      + injection Hmain as <-. done.
      + injection Hmain as Hmain. rewrite <- Hfiles in Hmc.
        specialize (Hmc _ Hmain). congruence. }
  subst moved.
  destruct (check_and_move_moves _ _ _ _ _ _ _ _ _ _ Hin)
    as (exports & target & e & camera & vp & Hex & _ & He & Hcam & Hc & Hdone
        & _ & Hvp & _ & Hsrc & Hdst).
  assert (Hacc : ∃ k, Pipeline.cameras_of a v !! k = Some camera
                      ∧ Requester.accepted
                          (Requester.post_outcome (Pipeline.export_env v k)) = true).
  { subst run. unfold Requester.export_previous_day_recordings in Hc.
    destruct (Requester.resolve_window _ _ _ _) as [s e'| |];
      [|by apply elem_of_nil in Hc..].
    destruct (trigger_loop_lists (Pipeline.export_env v) s e'
                (Pipeline.cameras_of a v) 0%nat ∅) as [Hfiles _].
    rewrite Hfiles, map_map in Hc. cbn in Hc. rewrite map_id in Hc.
    apply (accepted_cameras_spec (Pipeline.export_env v)) in Hc
      as (k & Hk & _ & Hok).
    by exists k. }
  destruct Hacc as (k & Hk & Hok).
  by exists exports, e, camera, vp, k.
Qed.

Lemma main_moves_only_accepted_cameras_witness :
  ∃ exports e camera video_path (k : nat),
    Pipeline.move_exports Fixture.env = Some exports
    ∧ e ∈ exports
    ∧ rec_camera e = Some camera
    ∧ default false (rec_in_progress e) = false
    ∧ rec_video_path e = Some video_path
    ∧ Sample.on_disk = get_real_file_path (SOURCE_PATH Sample.cfg) video_path
    ∧ "/backup/exports/front_2024-01-01.mp4"
      = Path.join (DEST_PATH Sample.cfg) (Path.basename video_path)
    ∧ Pipeline.cameras_of Fixture.args Fixture.env !! k = Some camera
    ∧ Requester.accepted
        (Requester.post_outcome (Pipeline.export_env Fixture.env k)) = true.
Proof.
  eapply (main_moves_only_accepted_cameras Sample.cfg Fixture.args Fixture.env _ _
            Sample.on_disk "/backup/exports/front_2024-01-01.mp4").
  - vm_compute. reflexivity.
  - reflexivity.
  - vm_compute. right. left.
Defined.

(** The run of [Fixture]: the file of the accepted camera is moved and its
    record deleted; the file of the refused camera stays where it is. *)
Example fixture_run :
  (λ o, match o with
        | Pipeline.Returned done =>
            (Relocator.events <$> Pipeline.relocation done,
             Tracker.returned <$> Pipeline.status done)
        | Pipeline.Exit _ => (None, None)
        end) <$> Pipeline.main Sample.cfg Fixture.args Fixture.env
  = Some (Some [Relocator.MakeDirs "/backup/exports";
                Relocator.Move Sample.on_disk "/backup/exports/front_2024-01-01.mp4";
                Relocator.DeleteRecord "a1b2"],
          Some true).
Proof. vm_compute. reflexivity. Qed.

(* ===================================================================== *)
(** * The target date string *)
(* ===================================================================== *)

Section DateStrings.

Import Calendar.

Lemma digit_digit_char (n : Z) (r : string) :
  digit (String (digit_char n) r) = Some (n mod 10, r).
Proof.
  unfold digit, decode, byte, digit_char.
  rewrite nat_ascii_embedding by lia_div.
  rewrite Z2Nat.id by lia_div.
  replace (48 + n mod 10 <? 128) with true by (symmetry; apply Z.ltb_lt; lia_div).
  cbn [mbind option_bind]. unfold decimal, nd_zeros. cbn [List.find].
  replace (48 <=? 48 + n mod 10) with true by (symmetry; apply Z.leb_le; lia_div).
  replace (48 + n mod 10 <=? 48 + 9) with true by (symmetry; apply Z.leb_le; lia_div).
  cbn. do 2 f_equal. lia.
Qed.

Lemma strptime_valid (s : string) (d : date) :
  strptime s = Some d → valid_date d = true.
Proof.
  unfold strptime.
  destruct (digit s) as [[a s1]|]; [|done]. cbn [mbind option_bind].
  destruct (digit s1) as [[b s2]|]; [|done]. cbn [mbind option_bind].
  destruct (digit s2) as [[c s3]|]; [|done]. cbn [mbind option_bind].
  destruct (digit s3) as [[e s4]|]; [|done]. cbn [mbind option_bind].
  destruct s4 as [|dash rest]; [done|].
  destruct (is_dash dash); [|done].
  destruct (parse_month rest) as [[m rest']|]; [|done]. cbn [mbind option_bind].
  destruct (parse_day rest') as [dd|]; [|done]. cbn [mbind option_bind].
  destruct (valid_date _) eqn:Hv; [|done]. by intros [= <-].
Qed.

Lemma drop_zeros_pad4 (y : Z) : 1000 ≤ y ≤ 9999 → drop_zeros (pad4 y) = pad4 y.
Proof.
  intros Hy. unfold pad4. cbn [drop_zeros].
  assert (y / 1000 = 1 ∨ y / 1000 = 2 ∨ y / 1000 = 3 ∨ y / 1000 = 4
          ∨ y / 1000 = 5 ∨ y / 1000 = 6 ∨ y / 1000 = 7 ∨ y / 1000 = 8
          ∨ y / 1000 = 9) as Hcases by lia_div.
  repeat (destruct Hcases as [->|Hcases]; [reflexivity|]). by rewrite Hcases.
Qed.

Lemma parse_month_pad2 (m : Z) (rest : string) :
  1 ≤ m ≤ 12 → parse_month (pad2 m +:+ String "-" rest) = Some (m, rest).
Proof.
  intros Hm.
  assert (m = 1 ∨ m = 2 ∨ m = 3 ∨ m = 4 ∨ m = 5 ∨ m = 6 ∨ m = 7 ∨ m = 8
          ∨ m = 9 ∨ m = 10 ∨ m = 11 ∨ m = 12) as Hcases by lia.
  repeat (destruct Hcases as [->|Hcases]; [reflexivity|]). by subst.
Qed.

Lemma parse_day_pad2 (dd : Z) : 1 ≤ dd ≤ 31 → parse_day (pad2 dd) = Some dd.
Proof.
  intros Hd.
  assert (Hnat : ∃ n : nat, dd = Z.of_nat n ∧ (1 ≤ n ≤ 31)%nat)
    by (exists (Z.to_nat dd); lia).
  destruct Hnat as (n & -> & Hn).
  do 32 (destruct n as [|n]; [first [lia | reflexivity]|]). lia.
Qed.

Lemma days_in_month_le (y m : Z) : days_in_month y m ≤ 31.
Proof.
  unfold days_in_month. destruct (_ && _); [lia|].
  destruct m as [|p|p]; try lia.
  do 4 (destruct p as [p|p|]; try lia).
Qed.

(** Formatting a date of four digits and reading it back gives the date. *)
Lemma strptime_strftime (d : date) :
  valid_date d = true → 1000 ≤ year d → strptime (strftime d) = Some d.
Proof.
  intros Hv Hy. pose proof Hv as Hv'. unfold valid_date in Hv'.
  destruct d as [y m dd]. cbn [year month day] in *.
  repeat (apply andb_true_iff in Hv' as [Hv' ?]).
  repeat match goal with H : (_ <=? _) = true |- _ => apply Z.leb_le in H end.
  pose proof (days_in_month_le y m).
  unfold strftime. cbn [year month day].
  rewrite drop_zeros_pad4 by lia. unfold pad4.
  change (String (digit_char (y / 1000)) (String (digit_char (y / 100)) (pad2 y))
          +:+ "-" +:+ pad2 m +:+ "-" +:+ pad2 dd)
    with (String (digit_char (y / 1000)) (String (digit_char (y / 100))
            (String (digit_char (y / 10)) (String (digit_char y)
               (String "-" (pad2 m +:+ String "-" (pad2 dd))))))).
  unfold strptime.
  rewrite digit_digit_char. cbn [mbind option_bind].
  rewrite digit_digit_char. cbn [mbind option_bind].
  rewrite digit_digit_char. cbn [mbind option_bind].
  rewrite digit_digit_char. cbn [mbind option_bind].
  change (is_dash "-") with true. cbv iota.
  rewrite parse_month_pad2 by lia. cbn [mbind option_bind].
  rewrite parse_day_pad2 by lia. cbn [mbind option_bind].
  replace (1000 * (y / 1000 mod 10) + 100 * (y / 100 mod 10)
           + 10 * (y / 10 mod 10) + y mod 10) with y by lia_div.
  by rewrite Hv.
Qed.

Lemma strftime_nonempty (d : date) : strftime d ≠ "".
Proof. unfold strftime. by destruct (drop_zeros _). Qed.

End DateStrings.

(** X23. For a date of the year 1000 or later, the string the record names
    are searched for is the zero-padded form of the date given, and giving
    that form selects the same string: [2024-1-5] and [2024-01-05] look for
    the same records. *)
Theorem target_date_str_is_normal_form (default_day : Calendar.date)
    (s : string) (d : Calendar.date) :
  Calendar.strptime s = Some d →
  1000 ≤ Calendar.year d →
  target_date_str default_day (Some s) = Some (Calendar.strftime d)
  ∧ Calendar.strptime (Calendar.strftime d) = Some d
  ∧ target_date_str default_day (Some (Calendar.strftime d))
    = Some (Calendar.strftime d).
Proof.
  intros Hs Hy.
  assert (Hne : s ≠ "") by (intros ->; discriminate).
  pose proof (strptime_strftime d (strptime_valid s d Hs) Hy) as Hround.
  unfold target_date_str. rewrite (truthy_Some _ Hne), Hs.
  split_and!; [done | done |].
  rewrite truthy_Some by apply strftime_nonempty.
  by rewrite Hround.
Qed.

Lemma target_date_str_is_normal_form_witness :
  target_date_str Sample.day (Some "2024-1-5") = Some "2024-01-05"
  ∧ target_date_str Sample.day (Some "2024-01-05") = Some "2024-01-05".
Proof.
  destruct (target_date_str_is_normal_form Sample.day "2024-1-5"
              (Calendar.Date 2024 1 5)) as (H1 & _ & H3).
  - reflexivity.
  - cbn. lia.
  - split; [exact H1 | exact H3].
Defined.
